(** * AFL-andon: the remote session orchestrator ([sshOperations.js])

    A shallow embedding of the [SSHOperations] class: the event handlers
    of [executeCommand], the lifecycle operations built on it, the
    per-host screen-session cache, the session-listing parser and the
    read-modify-write of the remote configuration document.

    Conventions.
    - JavaScript strings are modelled by [string]; a character stands for
      one code unit below 256.
    - A JavaScript object used as a string-keyed map is a [gmap string _]
      when the order of keys plays no role (the session cache) and an
      association list in [Object.keys] order when it does (the registry,
      JSON documents).
    - An [async] method is a function from the world before the call to
      its completion and the world after it.  A completion is a returned
      value, a thrown exception (a rejected promise) or a promise that
      never settles. *)

From Stdlib Require Import ZArith Bool Ascii Lia.
From stdpp Require Import gmap strings list pretty.

Local Open Scope Z_scope.

Set Warnings "-register-all".

(** ** Results handed back to callers *)

(** The object literals the class returns, one constructor per shape. *)
Inductive result : Type :=
| CommandOutput (output : string) (code : option Z) (signal : option string)
    (* { success: true, output, code, signal } *)
| SshDown
    (* { success: false, sshDown: true } *)
| Failure (error : string)
    (* { success: false, error } *)
| ServerStatus (status : bool)
    (* { success: true, status } *)
| HostDown (host : string)
    (* { success: false, sshDown: true, host } *)
| HostSessions (host : string) (sessions : list string)
    (* { success: true, host, sessions } *)
| FileData (data : string)
    (* { success: true, data } *)
| FileWritten.
    (* { success: true } *)

(** [r.success] *)
Definition success (r : result) : bool :=
  match r with
  | CommandOutput _ _ _ | ServerStatus _ | HostSessions _ _
  | FileData _ | FileWritten => true
  | SshDown | Failure _ | HostDown _ => false
  end.

(** Truthiness of [r.sshDown] ([undefined] when the field is absent). *)
Definition sshDown (r : result) : bool :=
  match r with
  | SshDown | HostDown _ => true
  | _ => false
  end.

(** Truthiness of [r.error]: a non-empty explanatory message. *)
Definition error_message (r : result) : option string :=
  match r with
  | Failure msg => Some msg
  | _ => None
  end.

(** ** The transport session: one [executeCommand] promise *)

Module Transport.

(** What the ssh2 client, the exec channel and the timer can deliver to the
    handlers installed by one [executeCommand] call.  Streams are numbered
    in the order in which [conn.exec] handed them to its callback. *)
Inductive event : Type :=
| ConnReady                       (* conn 'ready' *)
| ConnError                       (* conn 'error' *)
| ExecFailed                      (* conn.exec callback, err set *)
| ExecStream                      (* conn.exec callback, stream given *)
| StreamData (i : nat) (chunk : string)     (* stream 'data' *)
| StderrData (i : nat) (chunk : string)     (* stream.stderr 'data' *)
| StreamClose (i : nat) (code : option Z) (signal : option string)
| TimeoutElapsed.                 (* [timeout] ms have gone by *)

(** The variables closed over by the handlers, the calls made on [conn],
    and every value passed to [resolve], oldest first. *)
Record state : Type := mkState {
  timer : bool;             (* a setTimeout is pending *)
  settled : bool;
  resolved : list result;
  execs : nat;              (* conn.exec calls awaiting their callback *)
  streams : list string;    (* [output] of each stream *)
  ended : bool;             (* conn.end() was called *)
  destroyed : bool          (* conn.destroy() was called *)
}.

Definition set_timer (b : bool) (st : state) : state :=
  mkState b (settled st) (resolved st) (execs st) (streams st)
          (ended st) (destroyed st).

Definition set_execs (n : nat) (st : state) : state :=
  mkState (timer st) (settled st) (resolved st) n (streams st)
          (ended st) (destroyed st).

Definition set_streams (l : list string) (st : state) : state :=
  mkState (timer st) (settled st) (resolved st) (execs st) l
          (ended st) (destroyed st).

Definition conn_end (st : state) : state :=
  mkState (timer st) (settled st) (resolved st) (execs st) (streams st)
          true (destroyed st).

Definition conn_destroy (st : state) : state :=
  mkState (timer st) (settled st) (resolved st) (execs st) (streams st)
          (ended st) true.

(** [if (timer) { clearTimeout(timer); timer = null; }] *)
Definition cleanup (st : state) : state := set_timer false st.

(** [if (!settled) { settled = true; resolve(r); }] *)
Definition settle (r : result) (st : state) : state :=
  if settled st then st
  else mkState (timer st) true (resolved st ++ [r]) (execs st) (streams st)
               (ended st) (destroyed st).

(** The state right after the synchronous body of the promise executor, for
    a server found in the registry: handlers installed, [conn.connect]
    called, and the timer armed when [timeout > 0]. *)
Definition init (timeout : Z) : state :=
  mkState (0 <? timeout) false [] 0 [] false false.

Definition on_ready (st : state) : state :=
  let st := cleanup st in
  set_execs (S (execs st)) st.

Definition on_exec_failed (st : state) : state :=
  match execs st with
  | O => st
  | S n => settle SshDown (conn_end (set_execs n st))
  end.

Definition on_exec_stream (st : state) : state :=
  match execs st with
  | O => st
  | S n => set_streams (streams st ++ [EmptyString]) (set_execs n st)
  end.

(** [output += data], on the stream's own buffer. *)
Definition on_data (i : nat) (chunk : string) (st : state) : state :=
  set_streams (alter (fun output => output +:+ chunk) i (streams st)) st.

Definition on_close (i : nat) (code : option Z) (signal : option string)
    (st : state) : state :=
  match streams st !! i with
  | None => st
  | Some output => settle (CommandOutput output code signal) (conn_end st)
  end.

Definition on_error (st : state) : state :=
  settle SshDown (cleanup st).

(** The timer callback; it runs only while the timer is pending. *)
Definition on_timeout (st : state) : state :=
  if timer st then settle SshDown (cleanup (conn_destroy st)) else st.

Definition step (st : state) (e : event) : state :=
  match e with
  | ConnReady => on_ready st
  | ConnError => on_error st
  | ExecFailed => on_exec_failed st
  | ExecStream => on_exec_stream st
  | StreamData i chunk | StderrData i chunk => on_data i chunk st
  | StreamClose i code signal => on_close i code signal st
  | TimeoutElapsed => on_timeout st
  end.

Definition run (st : state) (evs : list event) : state :=
  fold_left step evs st.

(** The value the promise settles to: the argument of the first [resolve]. *)
Definition promise (st : state) : option result := head (resolved st).

(** *** Terminal events *)

(** The outcome an event carries when it ends the command in state [st]:
    a failed exec, the close of an open stream, a connection error, or the
    expiry of a pending timer.  [settled] plays no part here. *)
Definition terminal (st : state) (e : event) : option result :=
  match e with
  | ConnError => Some SshDown
  | ExecFailed => if execs st is O then None else Some SshDown
  | StreamClose i code signal =>
      output ← streams st !! i; Some (CommandOutput output code signal)
  | TimeoutElapsed => if timer st then Some SshDown else None
  | _ => None
  end.

(** The outcome of the earliest terminal event of a trace. *)
Fixpoint first_terminal (st : state) (evs : list event) : option result :=
  match evs with
  | [] => None
  | e :: evs' =>
      match terminal st e with
      | Some r => Some r
      | None => first_terminal (step st e) evs'
      end
  end.

(** Events that stop the timer or make it fire. *)
Definition touches_timer (e : event) : bool :=
  match e with
  | ConnReady | ConnError | TimeoutElapsed => true
  | _ => false
  end.

(** While the timer is pending nothing has happened on the connection. *)
Definition connecting (st : state) : Prop :=
  timer st = true →
  settled st = false ∧ resolved st = [] ∧ execs st = O ∧ streams st = [].

End Transport.

(** ** The session-listing parser *)

Module Sessions.

Local Open Scope N_scope.

Definition tab : ascii := ascii_of_nat 9.
Definition newline : ascii := ascii_of_nat 10.

(** [\d] *)
Definition is_digit (c : ascii) : bool :=
  let n := N_of_ascii c in (48 <=? n) && (n <=? 57).

(** [\s], on code units below 256: tab, line feed, vertical tab, form
    feed, carriage return, space and no-break space. *)
Definition is_space (c : ascii) : bool :=
  let n := N_of_ascii c in
  ((9 <=? n) && (n <=? 13)) || (n =? 32) || (n =? 160).

(** [[^\s\t]] *)
Definition is_name_char (c : ascii) : bool :=
  negb (is_space c || (N_of_ascii c =? 9)).

(** The longest prefix of [s] made of characters satisfying [p], and what
    follows it: a greedy [p+] or [p*]. *)
Fixpoint span (p : ascii → bool) (s : string) : string * string :=
  match s with
  | EmptyString => (EmptyString, EmptyString)
  | String c s' =>
      if p c then let '(run, rest) := span p s' in (String c run, rest)
      else (EmptyString, s)
  end.

(** One attempt of [/\d+\.([^\s\t]+)/] anchored at the start of [s],
    returning group 1.  The quantifiers are greedy; giving back digits or
    name characters never turns a failure into a success, since the
    character after a shorter run of digits is a digit and not a dot. *)
Definition match_here (s : string) : option string :=
  let '(digits, rest) := span is_digit s in
  match digits, rest with
  | String _ _, String c rest' =>
      if Ascii.eqb c "." then
        match span is_name_char rest' with
        | (EmptyString, _) => None
        | (name, _) => Some name
        end
      else None
  | _, _ => None
  end.

(** [line.match(/\d+\.([^\s\t]+)/)], reduced to [match[1]]: the attempt is
    made at each position from the left, and the first success wins. *)
Fixpoint match_session (line : string) : option string :=
  match match_here line with
  | Some name => Some name
  | None =>
      match line with
      | EmptyString => None
      | String _ line' => match_session line'
      end
  end.

(** [s.split('\n')] *)
Fixpoint split_lines (s : string) : list string :=
  match s with
  | EmptyString => [EmptyString]
  | String c s' =>
      if Ascii.eqb c newline then EmptyString :: split_lines s'
      else match split_lines s' with
           | l :: ls => String c l :: ls
           | [] => [String c EmptyString]
           end
  end.

(** Truthiness of [match && match[1]]: an empty capture is falsy. *)
Definition captured (line : string) : option string :=
  match match_session line with
  | Some EmptyString => None
  | m => m
  end.

(** The loop over the lines, pushing each captured name. *)
Fixpoint collect (screenSessions : list string) (lines : list string)
  : list string :=
  match lines with
  | [] => screenSessions
  | line :: lines' =>
      match captured line with
      | Some name => collect (screenSessions ++ [name]) lines'
      | None => collect screenSessions lines'
      end
  end.

Definition parse_sessions (output : string) : list string :=
  collect [] (split_lines output).

(** [sessions.includes(name)] *)
Definition includes (sessions : list string) (name : string) : bool :=
  bool_decide (name ∈ sessions).

(** A digits-dot-name token somewhere in a line. *)
Definition all_chars (p : ascii → bool) (s : string) : Prop :=
  Forall (fun c => p c = true) (String.list_ascii_of_string s).

Definition has_token (line : string) : Prop :=
  ∃ before digits name after,
    line = before +:+ digits +:+ "." +:+ name +:+ after
    ∧ digits ≠ EmptyString ∧ all_chars is_digit digits
    ∧ name ≠ EmptyString ∧ all_chars is_name_char name.

End Sessions.
(** ** The registry, the world and the operations *)

Module Orchestrator.

Import Transport Sessions.

(** One entry of [this.config], after [loadConfig] applied its defaults.
    [host] and [screen_name] are taken to be present. *)
Record serverConfig : Type := mkServer {
  host : string;
  username : string;
  screen_name : string;
  shell : string;
  server_module : option string;
  server_script : option string;
  conda_env : option string;
  active : bool;
  httpPort : Z
}.

(** [this.config], as the list of its entries in [Object.keys] order. *)
Definition registry : Type := list (string * serverConfig).

(** [this.config[serverName]], for the registry's own keys and for the
    names it does not have at all.  A name the registry does not hold but
    inherits from [Object.prototype] ([constructor], [toString], ...) reads
    as a value that is no server entry; the statements about a name without
    entry exclude those names ([Registry.inherited]). *)
Fixpoint lookup_server (serverName : string) (config : registry)
  : option serverConfig :=
  match config with
  | [] => None
  | (name, serverConfig) :: config' =>
      if String.eqb name serverName then Some serverConfig
      else lookup_server serverName config'
  end.

(** Truthiness of an optional string field: absent and the empty string
    are falsy. *)
Definition truthy (field : option string) : bool :=
  match field with
  | None | Some EmptyString => false
  | Some _ => true
  end.

(** [this.screenSessionCache[host]] *)
Record cacheEntry : Type := mkEntry {
  timestamp : Z;
  sessions : list string
}.

(** A connection opened towards a host, and what was asked of it. *)
Inductive request : Type :=
| ExecRequest (host username command : string) (timeout : Z)
| ReadRequest (host username remotePath : string)
| WriteRequest (host username remotePath content : string).

(** How an sftp exchange ends: with an error message, with its payload, or
    with no event at all. *)
Inductive sftp (A : Type) : Type :=
| SftpError (message : string)
| SftpDone (a : A)
| SftpSilent.
Arguments SftpError {A} message.
Arguments SftpDone {A} a.
Arguments SftpSilent {A}.

(** What the network does with one connection, and the wall-clock time
    that goes by until the caller resumes. *)
Inductive reply : Type :=
| ExecReply (elapsed : Z) (events : list event)
| ReadReply (elapsed : Z) (outcome : sftp string)
| WriteReply (elapsed : Z) (outcome : sftp unit).

(** The instance, the clock read by [Date.now()], the behaviour of the
    connections still to be opened, and the connections opened so far.
    [screenSessionCache] is set to an object by the constructor and never
    unset, so the guards against a missing cache are not modelled. *)
Record world : Type := mkWorld {
  config : registry;
  screenSessionCache : gmap string cacheEntry;
  now : Z;
  network : list reply;
  requests : list request
}.

Inductive exn : Type :=
| TypeError.    (* a property read or written on undefined or null *)

Inductive completion (A : Type) : Type :=
| Returned (a : A)
| Thrown (e : exn)
| Pending.
Arguments Returned {A} a.
Arguments Thrown {A} e.
Arguments Pending {A}.

(** An [async] method body. *)
Definition op (A : Type) : Type := world → completion A * world.

#[export] Instance op_ret : MRet op := λ A a w, (Returned a, w).

#[export] Instance op_bind : MBind op := λ A B k m w,
  match m w with
  | (Returned a, w') => k a w'
  | (Thrown e, w') => (Thrown e, w')
  | (Pending, w') => (Pending, w')
  end.

Definition throw {A} (e : exn) : op A := λ w, (Thrown e, w).

Definition never {A} : op A := λ w, (Pending, w).

Definition gets {A} (f : world → A) : op A := λ w, (Returned (f w), w).

Definition modify (f : world → world) : op unit := λ w, (Returned tt, f w).

(** Reading a property of [this.config[serverName]]. *)
Definition the_server (serverName : string) : op serverConfig :=
  config ← gets config;
  match lookup_server serverName config with
  | Some serverConfig => mret serverConfig
  | None => throw TypeError
  end.

Definition set_cache (h : string) (entry : cacheEntry) (w : world) : world :=
  mkWorld (config w) (<[h := entry]> (screenSessionCache w)) (now w)
          (network w) (requests w).

(** Opening a connection: the request is recorded and the next reply of
    the network is taken; the clock moves on while the caller waits. *)
Definition connect (rq : request) : op (option reply) := λ w,
  match network w with
  | [] =>
      (Returned None,
       mkWorld (config w) (screenSessionCache w) (now w) []
               (requests w ++ [rq]))
  | rp :: network' =>
      let elapsed :=
        match rp with
        | ExecReply d _ | ReadReply d _ | WriteReply d _ => d
        end in
      (Returned (Some rp),
       mkWorld (config w) (screenSessionCache w) (now w + elapsed) network'
               (requests w ++ [rq]))
  end.

(** [executeCommand(serverName, command, timeout)].  The handlers of
    [Transport] run over the events of the connection; the caller resumes
    with the first resolution, or never. *)
Definition executeCommand (serverName command : string) (timeout : Z)
  : op result :=
  config ← gets config;
  match lookup_server serverName config with
  | None => mret SshDown
  | Some serverConfig =>
      rp ← connect (ExecRequest (host serverConfig) (username serverConfig)
                                command timeout);
      match rp with
      | Some (ExecReply _ events) =>
          match promise (run (init timeout) events) with
          | Some r => mret r
          | None => never
          end
      | _ => never
      end
  end.

Definition dquote : ascii := ascii_of_nat 34.

(** [path.join(a, b)] for segments free of [.], [..] and doubled
    separators. *)
Definition path_join (a b : string) : string := a +:+ "/" +:+ b.

Definition startServer (serverName : string) : op result :=
  serverConfig ← the_server serverName;
  let screenLogPath :=
    path_join ".afl" (screen_name serverConfig +:+ ".screenlog") in
  let prefix :=
    "screen -d -m -L -Logfile ${HOME}/" +:+ screenLogPath +:+ " -S "
      +:+ screen_name serverConfig +:+ " " in
  if truthy (server_module serverConfig) then
    let command :=
      "python -m " +:+ default EmptyString (server_module serverConfig) in
    let command :=
      if truthy (conda_env serverConfig)
      then "conda activate " +:+ default EmptyString (conda_env serverConfig)
             +:+ ";" +:+ command
      else command in
    executeCommand serverName
      (prefix +:+ shell serverConfig +:+ " -ci " +:+ String dquote command
         +:+ String dquote EmptyString) 0
  else if truthy (server_script serverConfig) then
    executeCommand serverName
      (prefix +:+ default EmptyString (server_script serverConfig)) 0
  else
    mret (Failure
            "Neither server_module nor server_script specified in config").

Definition stopServer (serverName : string) : op result :=
  serverConfig ← the_server serverName;
  executeCommand serverName
    ("screen -X -S " +:+ screen_name serverConfig +:+ " quit") 0.

(** [restartServer], with the two methods it reaches through [this]. *)
Definition restartServer_with (stopServer startServer : string → op result)
    (serverName : string) : op result :=
  stopResult ← stopServer serverName;
  if negb (success stopResult) && negb (sshDown stopResult)
  then mret stopResult
  else startServer serverName.

Definition restartServer : string → op result :=
  restartServer_with stopServer startServer.

(** The part shared by the two status queries after a successful
    [screen -ls]: [result.output] is read, which only a command result
    has. *)
Definition output_of (r : result) : op string :=
  match r with
  | CommandOutput output _ _ => mret output
  | _ => throw TypeError
  end.

(** [cachedData && (now - cachedData.timestamp) < 5000]: the entry when
    the test passes. *)
Definition fresh (now : Z) (cachedData : option cacheEntry)
  : option cacheEntry :=
  match cachedData with
  | Some entry => if now - timestamp entry <? 5000 then Some entry else None
  | None => None
  end.

Definition getServerStatus (serverName : string) : op result :=
  serverConfig ← the_server serverName;
  let h := host serverConfig in
  cachedData ← gets (λ w, screenSessionCache w !! h);
  now ← gets now;
  match fresh now cachedData with
  | Some entry =>
      mret (ServerStatus (includes (sessions entry)
                                   (screen_name serverConfig)))
  | None =>
      result ← executeCommand serverName "screen -ls" 500;
      if negb (success result) then mret SshDown else
      output ← output_of result;
      let screenSessions := parse_sessions output in
      _ ← modify (set_cache h (mkEntry now screenSessions));
      mret (ServerStatus (includes screenSessions
                                   (screen_name serverConfig)))
  end.

(** [Object.keys(this.config).find(name => this.config[name].host === host)] *)
Definition find_server_name (h : string) (config : registry)
  : option string :=
  List.find
    (λ name, match lookup_server name config with
             | Some serverConfig => String.eqb (host serverConfig) h
             | None => false
             end)
    (map fst config).

Definition getBatchServerStatus (h : string) : op result :=
  config ← gets config;
  match find_server_name h config with
  | None | Some EmptyString =>
      mret (Failure ("No server configured for host " +:+ h))
  | Some serverName =>
      result ← executeCommand serverName "screen -ls" 500;
      if negb (success result) then mret (HostDown h) else
      output ← output_of result;
      let screenSessions := parse_sessions output in
      now ← gets now;
      _ ← modify (set_cache h (mkEntry now screenSessions));
      mret (HostSessions h screenSessions)
  end.

Definition getServerLog (serverName : string) (lines : Z) : op result :=
  serverConfig ← the_server serverName;
  let logPath :=
    path_join ".afl" (screen_name serverConfig +:+ ".screenlog") in
  executeCommand serverName
    ("tail -n " +:+ pretty lines +:+ " ${HOME}/" +:+ logPath) 0.

Definition joinServer (serverName : string) : op result :=
  serverConfig ← the_server serverName;
  executeCommand serverName ("screen -x " +:+ screen_name serverConfig) 0.

(** The two shapes [executeCommand] resolves with. *)
Definition command_shape (r : result) : Prop :=
  r = SshDown ∨ ∃ output code signal, r = CommandOutput output code signal.

(** The connections a call opened, given the worlds around it. *)
Definition opened (w w' : world) : nat :=
  (length (requests w') - length (requests w))%nat.

(** Wall-clock time going by between two calls. *)
Definition advance (d : Z) (w : world) : world :=
  mkWorld (config w) (screenSessionCache w) (now w + d) (network w)
          (requests w).

End Orchestrator.

(** ** The remote configuration document *)

Module Document.

Import Orchestrator.

(** A value produced by [JSON.parse].  The fields of an object are listed
    in the order of its own keys. *)
Inductive json : Type :=
| JNull
| JBool (b : bool)
| JNumber (literal : string)
| JString (s : string)
| JArray (items : list json)
| JObject (fields : list (string * json)).

Definition keys (fields : list (string * json)) : list string :=
  map fst fields.

(** [fields[key] = value] on an object, for a key that is not an integer
    index: an existing key keeps its place, a new one goes last. *)
Fixpoint set_field (key : string) (value : json)
    (fields : list (string * json)) : list (string * json) :=
  match fields with
  | [] => [(key, value)]
  | (k, v) :: fields' =>
      if String.eqb k key then (k, value) :: fields'
      else (k, v) :: set_field key value fields'
  end.

(** [existing[key] = value] in the strict mode of a class body, as
    [JSON.stringify] will see the outcome.  On an array a key that is not
    an index becomes a named property, which is not serialised; on [null]
    and on primitives the assignment throws. *)
Definition assign (existing : json) (key : string) (value : json)
  : op json :=
  match existing with
  | JObject fields => mret (JObject (set_field key value fields))
  | JArray items => mret (JArray items)
  | JNull | JBool _ | JNumber _ | JString _ => throw TypeError
  end.

(** The getters of a [Date], in local time. *)
Record date : Type := mkDate {
  getFullYear : Z;
  getMonth : Z;
  getDate : Z;
  getHours : Z;
  getMinutes : Z;
  getSeconds : Z;
  getMilliseconds : Z
}.

(** [s.padStart(targetLength, '0')] *)
Definition padStart (targetLength : nat) (s : string) : string :=
  String.string_of_list_ascii
    (replicate (targetLength - String.length s) "0"%char) +:+ s.

(** [s.slice(-2)] *)
Definition slice_last2 (s : string) : string :=
  String.substring (String.length s - 2) 2 s.

(** [String(n).padStart(2, '0')] *)
Definition pad (n : Z) : string := padStart 2 (pretty n).

(** The key under which a snapshot is stored. *)
Definition timestamp_key (now : date) : string :=
  let micros := padStart 6 (pretty (getMilliseconds now * 1000)) in
  slice_last2 (pretty (getFullYear now)) +:+ "/" +:+ pad (getDate now)
    +:+ "/" +:+ pad (getMonth now + 1) +:+ " "
    +:+ pad (getHours now) +:+ ":" +:+ pad (getMinutes now) +:+ ":"
    +:+ pad (getSeconds now) +:+ "." +:+ micros.

(** [Object.entries(this.config).find(([, cfg]) => cfg.host === host)],
    reduced to the configuration found. *)
Definition getServerForHost (h : string) (config : registry)
  : option serverConfig :=
  snd <$> List.find (λ entry, String.eqb (host (snd entry)) h) config.

(** What the promise of [readRemoteFile] resolves with, if anything. *)
Definition read_resolution (outcome : sftp string) : option result :=
  match outcome with
  | SftpError message => Some (Failure message)
  | SftpDone data => Some (FileData data)
  | SftpSilent => None
  end.

(** What the promise of [writeRemoteFile] resolves with, if anything. *)
Definition write_resolution (outcome : sftp unit) : option result :=
  match outcome with
  | SftpError message => Some (Failure message)
  | SftpDone _ => Some FileWritten
  | SftpSilent => None
  end.

(** [readRemoteFile]: the sftp exchange is summarised by its outcome. *)
Definition readRemoteFile (h remotePath : string) : op result :=
  config ← gets config;
  match getServerForHost h config with
  | None => mret (Failure ("No server for host " +:+ h))
  | Some server =>
      rp ← connect (ReadRequest (host server) (username server) remotePath);
      match rp with
      | Some (ReadReply _ outcome) =>
          match read_resolution outcome with
          | Some r => mret r
          | None => never
          end
      | _ => never
      end
  end.

Definition writeRemoteFile (h remotePath content : string) : op result :=
  config ← gets config;
  match getServerForHost h config with
  | None => mret (Failure ("No server for host " +:+ h))
  | Some server =>
      rp ← connect (WriteRequest (host server) (username server)
                                 remotePath content);
      match rp with
      | Some (WriteReply _ outcome) =>
          match write_resolution outcome with
          | Some r => mret r
          | None => never
          end
      | _ => never
      end
  end.

Section Save.

(** [JSON.parse], [None] standing for a thrown [SyntaxError];
    [JSON.stringify(_, null, 2)]; and the local calendar that turns the
    clock into the getters of [new Date()]. *)
Variable JSON_parse : string → option json.
Variable JSON_stringify : json → string.
Variable local_date : Z → date.

(** The document the save starts from: [{}] unless the read succeeded
    with a non-empty text that parses. *)
Definition existing_document (read : result) : json :=
  match read with
  | FileData EmptyString => JObject []
  | FileData data =>
      match JSON_parse data with
      | Some parsed => parsed
      | None => JObject []
      end
  | _ => JObject []
  end.

Definition remote_path (server : serverConfig) : string :=
  "/home/" +:+ username server +:+ "/.afl/config.json".

(** [saveRemoteAflConfig(host, cfgObj)], for a snapshot that is a JSON
    value. *)
Definition saveRemoteAflConfig (h : string) (cfgObj : json) : op result :=
  config ← gets config;
  match getServerForHost h config with
  | None => mret (Failure ("No server for host " +:+ h))
  | Some server =>
      let remotePath := remote_path server in
      read ← readRemoteFile h remotePath;
      let existing := existing_document read in
      now ← gets now;
      let ts := timestamp_key (local_date now) in
      existing ← assign existing ts cfgObj;
      let content := JSON_stringify existing in
      writeRemoteFile h remotePath content
  end.

End Save.

End Document.

(** ** Sample registries and networks *)

Module Samples.

Import Transport Sessions Orchestrator.

Definition worker : serverConfig :=
  mkServer "lab-host" "afl" "worker_a" "bash" (Some "AFL.worker") None None
           true 5000.

Definition fleet : registry := [("worker", worker)].

Definition unconfigured : world := mkWorld [] ∅ 0 [] [].

(** [screen -ls] with one detached session. *)
Definition listing : string :=
  "There are screens on:" +:+ String newline
    (String tab ("1234.worker_a" +:+ String tab "(Detached)" +:+
       String newline "1 Socket in /run/screen/S-afl.")).

Definition answering : list event :=
  [ConnReady; ExecStream; StreamData 0 listing; StreamClose 0 (Some 0) None].

(** The host answers the next connection. *)
Definition online : world :=
  mkWorld fleet ∅ 1000 [ExecReply 30 answering] [].

(** The host refuses two connections in a row. *)
Definition offline : world :=
  mkWorld fleet ∅ 1000 [ExecReply 20 [ConnError]; ExecReply 20 [ConnError]]
          [].

(** A [stopServer] that reports a failure of its own. *)
Definition failing_stop (serverName : string) : op result :=
  mret (Failure "no such session").

Import Document.

(** [JSON.stringify(s)] for a string: quotes, with the escapes of JSON. *)
Definition hex_digit (n : N) : ascii :=
  ascii_of_N (if (n <? 10)%N then 48 + n else 87 + n).

Definition backslash : ascii := ascii_of_nat 92.

Definition escape (c : string) : string := String backslash c.

Definition quote_char (c : ascii) : string :=
  let n := N_of_ascii c in
  if (n =? 34)%N then escape (String dquote EmptyString)
  else if (n =? 92)%N then escape (String backslash EmptyString)
  else if (n =? 8)%N then escape "b"
  else if (n =? 9)%N then escape "t"
  else if (n =? 10)%N then escape "n"
  else if (n =? 12)%N then escape "f"
  else if (n =? 13)%N then escape "r"
  else if (n <? 32)%N then
    escape ("u00" +:+ String (hex_digit (n / 16))
                        (String (hex_digit (n mod 16)) EmptyString))
  else String c EmptyString.

Fixpoint quote_chars (s : string) : string :=
  match s with
  | EmptyString => EmptyString
  | String c s' => quote_char c +:+ quote_chars s'
  end.

Definition quote (s : string) : string :=
  String dquote (quote_chars s +:+ String dquote EmptyString).

Fixpoint join (separator : string) (parts : list string) : string :=
  match parts with
  | [] => EmptyString
  | [part] => part
  | part :: parts' => part +:+ separator +:+ join separator parts'
  end.

(** [JSON.stringify(v, null, 2)], at a given indentation. *)
Fixpoint stringify_at (indent : string) (v : json) : string :=
  let inner := indent +:+ "  " in
  let line_break := String newline EmptyString in
  match v with
  | JNull => "null"
  | JBool true => "true"
  | JBool false => "false"
  | JNumber literal => literal
  | JString s => quote s
  | JArray [] => "[]"
  | JArray items =>
      "[" +:+ line_break +:+
      join ("," +:+ line_break)
           (map (λ item, inner +:+ stringify_at inner item) items)
      +:+ line_break +:+ indent +:+ "]"
  | JObject [] => "{}"
  | JObject fields =>
      "{" +:+ line_break +:+
      join ("," +:+ line_break)
           (map (λ field,
                   match field with
                   | (key, value) =>
                       inner +:+ quote key +:+ ": "
                         +:+ stringify_at inner value
                   end) fields)
      +:+ line_break +:+ indent +:+ "}"
  end.

Definition stringify : json → string := stringify_at EmptyString.

(** A document holding one earlier snapshot, and its text. *)
Definition old_document : json :=
  JObject [("24/01/02 03:04:05.006000"%string, JObject [])].

Definition old_text : string := stringify old_document.

(** [JSON.parse] on the texts used below; a syntax error elsewhere. *)
Definition parse (text : string) : option json :=
  if String.eqb text "[]" then Some (JArray [])
  else if String.eqb text "null" then Some JNull
  else if String.eqb text old_text then Some old_document
  else None.

(** A calendar for the clock readings used below: 3 February 2024,
    04:05:06, the milliseconds being those of the clock. *)
Definition calendar (ms : Z) : date :=
  mkDate 2024 1 3 4 5 6 (ms `mod` 1000).

Definition snapshot : json := JObject [("a"%string, JNumber "1")].

(** The remote file holds [text]; the write goes through. *)
Definition holding (text : string) : world :=
  mkWorld fleet ∅ 1007 [ReadReply 40 (SftpDone text);
                        WriteReply 40 (SftpDone tt)] [].

End Samples.

(** ** Editing and projecting the registry *)

Module Registry.

Import Orchestrator.

(** [addServer]: [this.config[serverName] = serverConfig].  A name already
    present keeps its place and a new one goes last, as for any key that is
    not an integer index.  The name [__proto__] is not covered: assigning
    it replaces the prototype of the registry instead of adding a key. *)
Fixpoint addServer (serverName : string) (serverConfig : serverConfig)
    (config : registry) : registry :=
  match config with
  | [] => [(serverName, serverConfig)]
  | (name, old) :: config' =>
      if String.eqb name serverName then (name, serverConfig) :: config'
      else (name, old) :: addServer serverName serverConfig config'
  end.

(** [removeServer]: [delete this.config[serverName]].  Only own keys are
    deleted: a name inherited from [Object.prototype] is read as before. *)
Fixpoint removeServer (serverName : string) (config : registry)
  : registry :=
  match config with
  | [] => []
  | (name, old) :: config' =>
      if String.eqb name serverName then removeServer serverName config'
      else (name, old) :: removeServer serverName config'
  end.

Definition set_active (b : bool) (sc : serverConfig) : serverConfig :=
  mkServer (host sc) (username sc) (screen_name sc) (shell sc)
           (server_module sc) (server_script sc) (conda_env sc) b
           (httpPort sc).

(** [toggleServerActive]: the entry, when there is one, has its [active]
    flag negated in place. *)
Fixpoint toggleServerActive (serverName : string) (config : registry)
  : registry :=
  match config with
  | [] => []
  | (name, sc) :: config' =>
      if String.eqb name serverName
      then (name, set_active (negb (active sc)) sc) :: config'
      else (name, sc) :: toggleServerActive serverName config'
  end.

(** The property names every object literal inherits from
    [Object.prototype]. *)
Definition inherited_keys : list string :=
  ["constructor"; "__proto__"; "hasOwnProperty"; "isPrototypeOf";
   "propertyIsEnumerable"; "toLocaleString"; "toString"; "valueOf";
   "__defineGetter__"; "__defineSetter__"; "__lookupGetter__";
   "__lookupSetter__"]%string.

Definition inherited (key : string) : bool :=
  bool_decide (key ∈ inherited_keys).

(** The [forEach] of [getServersByHost] over the entries still to visit.
    [hostMap] holds the own properties of the object literal.  For a host
    that is no own property but an inherited one, [hostMap[host]] is truthy,
    no list is created, and [push] is not a function: [None] stands for the
    [TypeError]. *)
Fixpoint group_by_host (entries : registry)
    (hostMap : gmap string (list string))
  : option (gmap string (list string)) :=
  match entries with
  | [] => Some hostMap
  | (serverName, serverConfig) :: entries' =>
      if negb (active serverConfig) then group_by_host entries' hostMap
      else
        let h := host serverConfig in
        match hostMap !! h with
        | Some names =>
            group_by_host entries' (<[h := names ++ [serverName]]> hostMap)
        | None =>
            if inherited h then None
            else group_by_host entries' (<[h := [serverName]]> hostMap)
        end
  end.

(** The names of the active servers of a host, in registry order. *)
Fixpoint names_on (h : string) (config : registry) : list string :=
  match config with
  | [] => []
  | (serverName, serverConfig) :: config' =>
      if active serverConfig && String.eqb (host serverConfig) h
      then serverName :: names_on h config'
      else names_on h config'
  end.

(** What a host map holds for a host, given the names to list. *)
Definition listing_of (names : list string) : option (list string) :=
  match names with
  | [] => None
  | _ => Some names
  end.

Definition getServersByHost (config : registry)
  : completion (gmap string (list string)) :=
  match group_by_host config ∅ with
  | Some hostMap => Returned hostMap
  | None => Thrown TypeError
  end.

(** An entry of the configuration file as [loadConfig] finds it, for the
    fields it defaults: absent, or present with the type the class expects. *)
Record loadedServer : Type := mkLoaded {
  loaded_httpPort : option Z;
  loaded_shell : option string;
  loaded_active : option bool;
  loaded_username : option string
}.

(** The body of the [forEach] of [loadConfig]; [osUser] is
    [require('os').userInfo().username]. *)
Definition loadConfig_defaults (osUser : string) (server : loadedServer)
  : loadedServer :=
  let httpPort :=
    match loaded_httpPort server with
    | None | Some 0 => Some 5000
    | port => port
    end in
  let shell :=
    if truthy (loaded_shell server) then loaded_shell server
    else Some "bash"%string in
  let active :=
    match loaded_active server with
    | None => Some true
    | flag => flag
    end in
  let username :=
    if truthy (loaded_username server) then loaded_username server
    else Some osUser in
  mkLoaded httpPort shell active username.

End Registry.

(** ** Reading the remote configuration document *)

Module RemoteConfig.

Import Orchestrator Document.

(** What [getRemoteAflConfig] returns: the failure of the read, handed on
    as it is, or [{ success: true, data }]. *)
Inductive remoteConfig : Type :=
| Unread (failure : result)
| ConfigData (data : json).

(** [res.data], when there is one. *)
Definition data_of (res : result) : option string :=
  match res with
  | FileData data => Some data
  | _ => None
  end.

Section Get.

Variable JSON_parse : string → option json.

Definition getRemoteAflConfig (h : string) : op remoteConfig :=
  config ← gets config;
  match getServerForHost h config with
  | None => mret (Unread (Failure ("No server for host " +:+ h)))
  | Some server =>
      res ← readRemoteFile h (remote_path server);
      if negb (success res) then mret (Unread res)
      else
        match data_of res ≫= JSON_parse with
        | Some data => mret (ConfigData data)
        | None => mret (ConfigData (JObject []))
        end
  end.

End Get.

(** The getters of a date of the years 2000 to 2099, the years in which
    [parseAflTimestamp] of the renderer places the keys it reads. *)
Definition of_this_century (d : date) : Prop :=
  2000 ≤ getFullYear d ≤ 2099
  ∧ 0 ≤ getMonth d ≤ 11
  ∧ 1 ≤ getDate d ≤ 31
  ∧ 0 ≤ getHours d ≤ 23
  ∧ 0 ≤ getMinutes d ≤ 59
  ∧ 0 ≤ getSeconds d ≤ 59
  ∧ 0 ≤ getMilliseconds d ≤ 999.

(** The number written by a string of decimal digits. *)
Fixpoint digits_value (acc : Z) (s : string) : Z :=
  match s with
  | EmptyString => acc
  | String c s' =>
      digits_value (acc * 10 + (Z.of_N (N_of_ascii c) - 48)) s'
  end.

(** [fields[key]] on an object. *)
Fixpoint get_field (key : string) (fields : list (string * json))
  : option json :=
  match fields with
  | [] => None
  | (k, v) :: fields' =>
      if String.eqb k key then Some v else get_field key fields'
  end.

End RemoteConfig.

(** ** More sample data *)

Module Streams.

Import Transport.

Inductive channel : Type :=
| Stdout
| Stderr.

(** A chunk arriving on the first stream of the connection. *)
Definition data_event (chunk : channel * string) : event :=
  match chunk with
  | (Stdout, text) => StreamData 0 text
  | (Stderr, text) => StderrData 0 text
  end.

(** The chunks of a sequence of arrivals, glued in order. *)
Fixpoint glue (chunks : list (channel * string)) : string :=
  match chunks with
  | [] => EmptyString
  | (_, text) :: chunks' => text +:+ glue chunks'
  end.

(** A call that has resolved has had its connection given up. *)
Definition torn_down (st : state) : Prop :=
  resolved st = [] ∨ ended st = true ∨ destroyed st = true.

End Streams.

(** ** What a call may change *)

Module Frames.

Import Orchestrator.

(** From [w] to [w'] the registry is the same and at most [n] connections
    were opened. *)
Definition connects_at_most (n : nat) (w w' : world) : Prop :=
  config w' = config w
  ∧ ∃ opened,
      requests w' = requests w ++ opened ∧ (length opened ≤ n)%nat.

(** From [w] to [w'] the cache entries of the hosts other than [h] are the
    same. *)
Definition cache_same_elsewhere (h : string) (w w' : world) : Prop :=
  ∀ h', h' ≠ h → screenSessionCache w' !! h' = screenSessionCache w !! h'.

(** From [w] to [w'] the registry and the cache are the same and at most
    [n] connections were opened. *)
Definition quiet (n : nat) (w w' : world) : Prop :=
  connects_at_most n w w' ∧ screenSessionCache w' = screenSessionCache w.

(** The registry gives no server the empty name. *)
Definition names_are_given (config : registry) : Prop :=
  Forall (λ entry, entry.1 ≠ EmptyString) config.

End Frames.

(** ** More sample registries *)

Module MoreSamples.

Import Transport Sessions Orchestrator Samples.

(** A server whose module is the empty string and which has no script. *)
Definition bare : serverConfig :=
  mkServer "lab-host" "afl" "bare" "bash" (Some EmptyString) None None true
           5000.

Definition bare_fleet : registry := [("worker", worker); ("bare", bare)].

(** The host lets one command run to its end. *)
Definition obliging : world :=
  mkWorld bare_fleet ∅ 1000
          [ExecReply 30 [ConnReady; ExecStream; StreamClose 0 (Some 0) None]]
          [].

(** An entry for the host captured 5000 ms before the clock of [online],
    listing a session that is gone. *)
Definition outdated : world :=
  mkWorld fleet
          {[ "lab-host"%string := mkEntry (-4000) ["old_session"%string] ]}
          1000 [ExecReply 30 answering] [].

(** A fresh entry for the host, and a host that answers all the same. *)
Definition cached : world :=
  mkWorld fleet {[ "lab-host"%string := mkEntry 999 ["old_session"%string] ]}
          1000 [ExecReply 30 answering] [].

(** The remote file cannot be read; the write goes through. *)
Definition unreadable : world :=
  mkWorld fleet ∅ 1007 [ReadReply 40 (SftpError "No such file");
                        WriteReply 40 (SftpDone tt)] [].

(** A document that already holds the key generated at clock 1047. *)
Definition clash_document : Document.json :=
  Document.JObject
    [("24/01/02 03:04:05.006000"%string, Document.JObject []);
     ("24/03/02 04:05:06.047000"%string, Document.JString "earlier")].

Definition clash_text : string := stringify clash_document.

(** The document of [old_text] with the snapshot saved at clock 1047. *)
Definition saved_document : Document.json :=
  Document.JObject
    [("24/01/02 03:04:05.006000"%string, Document.JObject []);
     ("24/03/02 04:05:06.047000"%string, snapshot)].

(** [JSON.parse] on the texts of [Samples] and on the two above. *)
Definition parse_more (text : string) : option Document.json :=
  if String.eqb text clash_text then Some clash_document
  else if String.eqb text (stringify saved_document) then Some saved_document
  else parse text.

(** The remote file holds [old_text]; the write goes through and a later
    read finds what was written. *)
Definition keeping : world :=
  mkWorld fleet ∅ 1007 [ReadReply 40 (SftpDone old_text);
                        WriteReply 40 (SftpDone tt);
                        ReadReply 40 (SftpDone (stringify saved_document))]
          [].

(** A registry whose first server on the host has the empty name. *)
Definition nameless : world :=
  mkWorld [(EmptyString, worker); ("worker"%string, worker)] ∅ 1000
          [ExecReply 30 answering] [].

End MoreSamples.

(** ** The course of a command, told from the events alone *)

Module Protocol.

Import Transport.

(** What the events delivered so far amount to, whatever the handlers did
    with them: whether the time limit is still running, how many exec
    requests await their answer, and what each stream opened so far has
    delivered. *)
Record progress : Type := mkProgress {
  limit_running : bool;
  awaited : nat;
  delivered : list string
}.

(** A call starts with its time limit running when it has one, and with
    nothing asked of the connection. *)
Definition start (timeout : Z) : progress :=
  mkProgress (0 <? timeout) O [].





End Protocol.

(** * Properties *)

(** ** Exactly-once resolution of [executeCommand] *)

Section TransportFacts.

Import Transport.

Lemma settle_settled r st : settled (settle r st) = true.
Proof. unfold settle. by destruct (settled st) eqn:E. Qed.

Lemma settle_fresh r st :
  settled st = false → resolved (settle r st) = resolved st ++ [r].
Proof. unfold settle. by intros ->. Qed.

Lemma settle_done r st : settled st = true → settle r st = st.
Proof. unfold settle. by intros ->. Qed.

(** Once settled, no handler resolves again. *)
Lemma step_settled st e :
  settled st = true →
  settled (step st e) = true ∧ resolved (step st e) = resolved st.
Proof.
  intros Hs. destruct e; simpl;
    unfold on_ready, on_error, on_exec_failed, on_exec_stream, on_data,
      on_close, on_timeout;
    repeat case_match; try done.
  all: rewrite settle_done; done.
Qed.

Lemma run_settled evs st :
  settled st = true →
  settled (run st evs) = true ∧ resolved (run st evs) = resolved st.
Proof.
  revert st. induction evs as [|e evs IH]; intros st Hs; [done|].
  destruct (step_settled st e Hs) as [Hs' Hr].
  destruct (IH _ Hs') as [? ?]. simpl. split; congruence.
Qed.

(** A terminal event settles an unsettled call with its outcome. *)
Lemma step_terminal st e r :
  settled st = false → terminal st e = Some r →
  settled (step st e) = true ∧ resolved (step st e) = resolved st ++ [r].
Proof.
  intros Hs Ht. destruct e; simpl in *;
    unfold on_error, on_exec_failed, on_close, on_timeout;
    repeat case_match; simplify_eq/=;
    (split; [apply settle_settled | by rewrite settle_fresh]).
Qed.

(** Any other event leaves the call unsettled. *)
Lemma step_not_terminal st e :
  terminal st e = None →
  settled (step st e) = settled st ∧ resolved (step st e) = resolved st.
Proof.
  intros Ht. destruct e; simpl in *;
    unfold on_ready, on_exec_failed, on_exec_stream, on_data, on_close,
      on_timeout;
    repeat case_match; simplify_eq/=; done.
Qed.

Lemma run_first_terminal evs st :
  settled st = false → resolved st = [] →
  resolved (run st evs) = option_list (first_terminal st evs).
Proof.
  revert st. induction evs as [|e evs IH]; intros st Hs Hr; [done|].
  simpl. destruct (terminal st e) as [r|] eqn:Ht.
  - destruct (step_terminal st e r Hs Ht) as [Hs' Hr'].
    destruct (run_settled evs _ Hs') as [_ ->].
    by rewrite Hr', Hr.
  - destruct (step_not_terminal st e Ht) as [Hs' Hr'].
    apply IH; congruence.
Qed.

Lemma first_terminal_shape st evs r :
  first_terminal st evs = Some r →
  r = SshDown ∨ ∃ output code signal, r = CommandOutput output code signal.
Proof.
  revert st. induction evs as [|e evs IH]; intros st; [done|].
  cbn [first_terminal].
  destruct (terminal st e) as [r'|] eqn:Ht; [|by apply IH].
  intros [= ->]. destruct e; simpl in Ht; repeat case_match;
    simplify_option_eq; eauto.
Qed.

(** What an [executeCommand] promise can settle to. *)
Lemma promise_shape timeout evs r :
  promise (run (init timeout) evs) = Some r →
  r = SshDown ∨ ∃ output code signal, r = CommandOutput output code signal.
Proof.
  unfold promise. rewrite run_first_terminal by done.
  destruct (first_terminal _ _) as [r'|] eqn:Hf; [|done].
  intros [= ->]. by eapply first_terminal_shape.
Qed.





(** A late connection error after the timeout fired, and output arriving
    after the close, do not resolve the call a second time. *)
Example late_events_are_ignored :
  resolved (run (init 500) [TimeoutElapsed; ConnError; ConnReady]) = [SshDown]
  ∧ resolved (run (init 0)
                [ConnReady; ExecStream; StreamData 0 "ab"; StderrData 0 "cd";
                 StreamClose 0 (Some 0) None; StreamData 0 "ef"; ConnError])
    = [CommandOutput "abcd" (Some 0) None].
Proof. split; reflexivity. Qed.

(** *** The timer *)

Lemma run_app st evs1 evs2 : run st (evs1 ++ evs2) = run (run st evs1) evs2.
Proof. apply fold_left_app. Qed.

Lemma timer_stays_cleared st e : timer st = false → timer (step st e) = false.
Proof.
  intros Ht. destruct st as [tm se rs ex ss en de]; simpl in Ht; subst tm.
  destruct e; simpl;
    unfold on_ready, on_error, on_exec_failed, on_exec_stream, on_data,
      on_close, on_timeout, settle;
    simpl; repeat case_match; done.
Qed.

Lemma run_timer_stays_cleared evs st :
  timer st = false → timer (run st evs) = false.
Proof.
  revert st. induction evs as [|e evs IH]; intros st Ht; [done|].
  simpl. by apply IH, timer_stays_cleared.
Qed.

Lemma destroyed_stays st e :
  destroyed st = true → destroyed (step st e) = true.
Proof.
  intros Hd. destruct st as [tm se rs ex ss en de]; simpl in Hd; subst de.
  destruct e; simpl;
    unfold on_ready, on_error, on_exec_failed, on_exec_stream, on_data,
      on_close, on_timeout, settle;
    simpl; repeat case_match; done.
Qed.

Lemma run_destroyed_stays evs st :
  destroyed st = true → destroyed (run st evs) = true.
Proof.
  revert st. induction evs as [|e evs IH]; intros st Hd; [done|].
  simpl. by apply IH, destroyed_stays.
Qed.

Lemma connecting_step st e : connecting st → connecting (step st e).
Proof.
  unfold connecting. intros Hc.
  destruct st as [tm se rs ex ss en de]; simpl in *.
  destruct tm.
  - destruct Hc as (-> & -> & -> & ->); [done|].
    destruct e; simpl;
      unfold on_ready, on_error, on_exec_failed, on_exec_stream, on_data,
        on_close, on_timeout, settle;
      simpl; done.
  - intros Ht. by rewrite timer_stays_cleared in Ht.
Qed.

Lemma connecting_run evs st : connecting st → connecting (run st evs).
Proof.
  revert st. induction evs as [|e evs IH]; intros st Hc; [done|].
  simpl. by apply IH, connecting_step.
Qed.

Lemma connecting_init timeout : connecting (init timeout).
Proof. by intros _. Qed.

(** Events other than ready, error and the timeout find no handler while
    the connection is being set up. *)
Lemma step_before_ready st e :
  execs st = O → streams st = [] → touches_timer e = false →
  step st e = st.
Proof.
  destruct st as [tm se rs ex ss en de]; simpl. intros -> -> He.
  by destruct e.
Qed.

Lemma run_before_ready evs st :
  execs st = O → streams st = [] →
  Forall (λ e, touches_timer e = false) evs → run st evs = st.
Proof.
  intros Hx Hs. induction 1 as [|e evs He _ IH]; [done|].
  simpl. by rewrite step_before_ready.
Qed.

(** C2, as the code has it. With a non-zero timeout: if the timeout
    elapses before the connection is ready and before any connection
    error, the connection is destroyed and the call resolves with the
    transport failure; once the connection is ready the timer is cleared,
    whatever follows; and whenever the call has resolved no timer is
    pending. *)
Theorem timeout_bounds_the_connection_phase (timeout : Z)
    (pre post evs : list event) :
  0 < timeout →
  Forall (λ e, touches_timer e = false) pre →
  (let st := run (init timeout) (pre ++ TimeoutElapsed :: post) in
   destroyed st = true ∧ resolved st = [SshDown] ∧ timer st = false)
  ∧ timer (run (init timeout) (pre ++ ConnReady :: post)) = false
  ∧ (resolved (run (init timeout) evs) ≠ [] →
     timer (run (init timeout) evs) = false).
Proof.
  intros Hpos Hpre. split; [|split].
  - rewrite run_app, (run_before_ready pre) by done.
    assert (Hfire : step (init timeout) TimeoutElapsed
                    = mkState false true [SshDown] 0 [] false true).
    { unfold init. by apply Z.ltb_lt in Hpos as ->. }
    cbn [run fold_left]. rewrite Hfire. fold (run (mkState false true
      [SshDown] 0 [] false true) post).
    split; [by apply run_destroyed_stays|].
    split; [by apply run_settled|by apply run_timer_stays_cleared].
  - rewrite run_app. cbn [run fold_left].
    apply (run_timer_stays_cleared post). done.
  - intros Hres.
    pose proof (connecting_run evs _ (connecting_init timeout)) as Hc.
    destruct (timer (run (init timeout) evs)) eqn:Ht; [|done].
    by destruct Hc as (_ & ? & _).
Qed.

Lemma timeout_bounds_the_connection_phase_witness :
  0 < 100
  ∧ Forall (λ e, touches_timer e = false) [StreamData 0 "x"]
  ∧ (let st := run (init 100)
                 ([StreamData 0 "x"] ++ TimeoutElapsed :: [ConnError]) in
     destroyed st = true ∧ resolved st = [SshDown] ∧ timer st = false).
Proof.
  assert (H1 : 0 < 100) by lia.
  assert (H2 : Forall (λ e, touches_timer e = false) [StreamData 0 "x"])
    by (repeat constructor).
  split; [exact H1|]. split; [exact H2|].
  exact (proj1 (timeout_bounds_the_connection_phase 100 [StreamData 0 "x"]
                  [ConnError] [] H1 H2)).
Defined.

(** C2 does not hold as stated: with a timeout of 100 ms, once the
    connection is ready and the command is running, the timeout elapsing
    neither destroys the connection nor resolves the call. *)
Lemma timeout_after_ready_has_no_effect :
  let before := run (init 100) [ConnReady; ExecStream] in
  let st := step before TimeoutElapsed in
  0 < 100
  ∧ resolved before = []
  ∧ st = before
  ∧ ¬ (destroyed st = true ∧ promise st = Some SshDown).
Proof.
  simpl. split; [lia|]. split; [done|]. split; [done|].
  by intros [? _].
Qed.

End TransportFacts.

(** ** The session-listing parser *)

Section ParserFacts.

Import Sessions.

#[local] Arguments String.append !_ _ / : simpl nomatch.

Lemma span_spec p s run rest :
  span p s = (run, rest) → s = run +:+ rest ∧ all_chars p run.
Proof.
  revert run rest. induction s as [|c s IH]; intros run rest; simpl.
  - intros [= <- <-]. split; [done|constructor].
  - destruct (p c) eqn:Hc.
    + destruct (span p s) as [run' rest'] eqn:Hs. intros [= <- <-].
      destruct (IH _ _ eq_refl) as [-> Hall].
      split; [done|by constructor].
    + intros [= <- <-]. split; [done|constructor].
Qed.

(** The greedy run swallows any prefix made of matching characters. *)
Lemma span_prefix p a b :
  all_chars p a → ∃ more rest, span p (a +:+ b) = (a +:+ more, rest).
Proof.
  induction a as [|c a IH]; simpl; intros Hall.
  - destruct (span p b) as [more rest]. by exists more, rest.
  - inversion Hall as [|? ? Hc Hall']; subst.
    destruct (IH Hall') as (more & rest & ->).
    rewrite Hc. by exists more, rest.
Qed.

Lemma span_stop p a c b :
  all_chars p a → p c = false → span p (a +:+ String c b) = (a, String c b).
Proof.
  induction a as [|c' a IH]; simpl; intros Hall Hc.
  - by rewrite Hc.
  - inversion Hall as [|? ? Hc' Hall']; subst.
    by rewrite Hc', IH.
Qed.

Lemma match_here_sound s name :
  match_here s = Some name →
  ∃ digits after,
    s = digits +:+ "." +:+ name +:+ after
    ∧ digits ≠ EmptyString ∧ all_chars is_digit digits
    ∧ name ≠ EmptyString ∧ all_chars is_name_char name.
Proof.
  unfold match_here.
  destruct (span is_digit s) as [digits rest] eqn:Hd.
  destruct digits as [|d digits]; [done|].
  destruct rest as [|c rest]; [done|].
  destruct (Ascii.eqb c ".") eqn:Hc; [|done].
  apply Ascii.eqb_eq in Hc as ->.
  destruct (span is_name_char rest) as [nm after] eqn:Hn.
  destruct nm as [|n nm]; [done|]. intros [= <-].
  apply span_spec in Hd as [-> Hdig]. apply span_spec in Hn as [-> Hnm].
  by exists (String d digits), after.
Qed.

Lemma match_session_sound line name :
  match_session line = Some name →
  ∃ before digits after,
    line = before +:+ digits +:+ "." +:+ name +:+ after
    ∧ digits ≠ EmptyString ∧ all_chars is_digit digits
    ∧ name ≠ EmptyString ∧ all_chars is_name_char name.
Proof.
  induction line as [|c line IH]; cbn [match_session].
  - destruct (match_here EmptyString) eqn:Hm; [|done]. intros [= ->].
    destruct (match_here_sound _ _ Hm) as (digits & after & ?).
    by exists EmptyString, digits, after.
  - destruct (match_here (String c line)) eqn:Hm.
    + intros [= ->].
      destruct (match_here_sound _ _ Hm) as (digits & after & ?).
      by exists EmptyString, digits, after.
    + intros Hrec.
      destruct (IH Hrec) as (before & digits & after & -> & ?).
      by exists (String c before), digits, after.
Qed.

Lemma match_here_complete digits name after :
  digits ≠ EmptyString → all_chars is_digit digits →
  name ≠ EmptyString → all_chars is_name_char name →
  is_Some (match_here (digits +:+ "." +:+ name +:+ after)).
Proof.
  intros Hd Hdig Hn Hnm. unfold match_here.
  change (digits +:+ "." +:+ name +:+ after)
    with (digits +:+ String "." (name +:+ after)).
  rewrite (span_stop is_digit digits "." (name +:+ after)) by done.
  destruct digits as [|d digits]; [done|].
  rewrite Ascii.eqb_refl.
  destruct (span_prefix is_name_char name after Hnm) as (more & rest & ->).
  destruct name as [|n name]; [done|]. simpl. eauto.
Qed.

Lemma match_session_complete before s :
  is_Some (match_here s) → is_Some (match_session (before +:+ s)).
Proof.
  intros [name Hm]. induction before as [|c before IH]; simpl.
  - destruct s; cbn [match_session]; rewrite Hm; eauto.
  - destruct (match_here (String c (before +:+ s))); eauto.
Qed.

Lemma captured_is_match line : captured line = match_session line.
Proof.
  unfold captured. destruct (match_session line) as [name|] eqn:Hm; [|done].
  destruct name; [|done].
  by destruct (match_session_sound _ _ Hm) as (? & ? & ? & _ & _ & _ & ? & _).
Qed.

Lemma collect_app acc lines1 lines2 :
  collect acc (lines1 ++ lines2) = collect (collect acc lines1) lines2.
Proof.
  revert acc. induction lines1 as [|l lines1 IH]; intros acc; [done|].
  simpl. destruct (captured l); apply IH.
Qed.

(** A line is skipped exactly when it holds no digits-dot-name token. *)
Lemma captured_none_iff line : captured line = None ↔ ¬ has_token line.
Proof.
  rewrite captured_is_match. split.
  - intros Hnone (before & digits & name & after & -> & Hd & Hdig & Hn & Hnm).
    destruct (match_session_complete before _
                (match_here_complete digits name after Hd Hdig Hn Hnm))
      as [x Hx].
    congruence.
  - intros Hno. destruct (match_session line) as [name|] eqn:Hm; [|done].
    destruct Hno.
    destruct (match_session_sound _ _ Hm) as (before & digits & after & ?).
    by exists before, digits, name, after.
Qed.

(** C8. The line [1234.worker_a<TAB>(Detached)] yields the session name
    [worker_a]; the header line [There are screens on:] yields nothing;
    and any line without a digits-dot-name token is skipped: it yields no
    name and the sessions collected are those of the other lines. *)
Theorem session_parser_skips_lines_without_token
    (line : string) (acc : list string) (before after : list string) :
  ¬ has_token line →
  captured line = None
  ∧ collect acc (before ++ line :: after) = collect acc (before ++ after)
  ∧ captured ("1234.worker_a" +:+ String tab "(Detached)") = Some "worker_a"
  ∧ captured "There are screens on:" = None
  ∧ parse_sessions
      ("There are screens on:" +:+ String newline
         ("1234.worker_a" +:+ String tab "(Detached)"))
    = ["worker_a"].
Proof.
  intros Hno. apply captured_none_iff in Hno.
  split; [done|]. split; [|by vm_compute].
  rewrite !collect_app. simpl. by rewrite Hno.
Qed.

Lemma session_parser_skips_lines_without_token_witness :
  ¬ has_token "There are screens on:"
  ∧ collect [] ([] ++ "There are screens on:"
                  :: ["1234.worker_a" +:+ String tab "(Detached)"])
    = collect [] ([] ++ ["1234.worker_a" +:+ String tab "(Detached)"]).
Proof.
  assert (H : ¬ has_token "There are screens on:")
    by (by apply captured_none_iff; vm_compute).
  split; [exact H|].
  exact (proj1 (proj2 (session_parser_skips_lines_without_token
                         "There are screens on:" [] []
                         ["1234.worker_a" +:+ String tab "(Detached)"] H))).
Defined.

End ParserFacts.

(** ** Lifecycle operations and the status cache *)

Section OrchestratorFacts.

Import Transport Sessions Orchestrator.

Ltac run_op :=
  unfold mbind, op_bind, mret, op_ret, gets, modify, throw, never; simpl.

Lemma executeCommand_unknown serverName command timeout w :
  lookup_server serverName (config w) = None →
  executeCommand serverName command timeout w = (Returned SshDown, w).
Proof. intros H. unfold executeCommand. run_op. by rewrite H. Qed.

(** A call on a registered server opens one connection, leaves the
    registry and the cache alone, never throws, and returns a command
    result if it returns. *)
Lemma executeCommand_known serverName command timeout w serverConfig :
  lookup_server serverName (config w) = Some serverConfig →
  ∃ c w',
    executeCommand serverName command timeout w = (c, w')
    ∧ config w' = config w
    ∧ screenSessionCache w' = screenSessionCache w
    ∧ requests w' = requests w
        ++ [ExecRequest (host serverConfig) (username serverConfig)
                        command timeout]
    ∧ match c with
      | Returned r => command_shape r
      | Thrown _ => False
      | Pending => True
      end.
Proof.
  intros H. unfold executeCommand, connect. run_op. rewrite H.
  destruct (network w) as [|rp nw]; simpl; [by eauto 10|].
  destruct rp as [d evs|d o|d o]; simpl; [|by eauto 10..].
  destruct (promise (run (init timeout) evs)) as [r|] eqn:Hp; simpl;
    [|by eauto 10].
  apply promise_shape in Hp. eauto 10.
Qed.

(** The caller of [executeCommand] resumes with the outcome of the
    earliest terminal event of the connection, and waits for ever when
    there is none. *)
Lemma executeCommand_returns_first_terminal
    serverName command timeout w serverConfig elapsed events network' :
  lookup_server serverName (config w) = Some serverConfig →
  network w = ExecReply elapsed events :: network' →
  (executeCommand serverName command timeout w).1
  = match first_terminal (init timeout) events with
    | Some r => Returned r
    | None => Pending
    end.
Proof.
  intros Hl Hn. unfold executeCommand, connect, promise. run_op.
  rewrite Hl. simpl. rewrite Hn. simpl.
  rewrite run_first_terminal by done.
  by destruct (first_terminal (init timeout) events).
Qed.

Lemma command_shape_abort r :
  command_shape r → negb (success r) && negb (sshDown r) = false.
Proof. by intros [->|(? & ? & ? & ->)]. Qed.

Lemma command_shape_output r :
  command_shape r → success r = true →
  ∃ output code signal, r = CommandOutput output code signal.
Proof. intros [->|?]; [done|eauto]. Qed.

Lemma lookup_server_elem serverName config serverConfig :
  lookup_server serverName config = Some serverConfig →
  (serverName, serverConfig) ∈ config.
Proof.
  induction config as [|[name sc] config IH]; simpl; [done|].
  destruct (String.eqb name serverName) eqn:E.
  - apply String.eqb_eq in E as ->. intros [= ->]. left.
  - intros H. right. by apply IH.
Qed.

Lemma find_server_name_some h config serverName :
  find_server_name h config = Some serverName →
  ∃ serverConfig,
    lookup_server serverName config = Some serverConfig
    ∧ host serverConfig = h.
Proof.
  unfold find_server_name. intros H.
  apply List.find_some in H as [_ H].
  destruct (lookup_server serverName config) as [sc|]; [|done].
  apply String.eqb_eq in H. eauto.
Qed.

Lemma find_server_name_none h config :
  Forall (λ entry, host entry.2 ≠ h) config →
  find_server_name h config = None.
Proof.
  intros Hall. destruct (find_server_name h config) as [n|] eqn:Hf; [|done].
  apply find_server_name_some in Hf as (sc & Hl & Hh).
  apply lookup_server_elem in Hl.
  rewrite Forall_forall in Hall. by destruct (Hall _ Hl).
Qed.

(** C3 does not hold as stated: on a registry without the server,
    [executeCommand] answers with the transport failure, which carries no
    message, and the methods that read a field of the missing entry throw
    instead of returning. *)
Lemma missing_server_is_not_a_configuration_error :
  executeCommand "ghost" "uptime" 0 Samples.unconfigured
    = (Returned SshDown, Samples.unconfigured)
  ∧ error_message SshDown = None
  ∧ startServer "ghost" Samples.unconfigured
    = (Thrown TypeError, Samples.unconfigured)
  ∧ stopServer "ghost" Samples.unconfigured
    = (Thrown TypeError, Samples.unconfigured)
  ∧ restartServer "ghost" Samples.unconfigured
    = (Thrown TypeError, Samples.unconfigured)
  ∧ getServerStatus "ghost" Samples.unconfigured
    = (Thrown TypeError, Samples.unconfigured)
  ∧ getServerLog "ghost" 200 Samples.unconfigured
    = (Thrown TypeError, Samples.unconfigured)
  ∧ joinServer "ghost" Samples.unconfigured
    = (Thrown TypeError, Samples.unconfigured).
Proof. repeat split. Qed.

(** C3, as the code has it. [executeCommand] on a name that has no
    registry entry, and that is not a property name every object inherits
    from [Object.prototype], resolves with the transport failure; and
    [getBatchServerStatus] on a host that no registry entry has returns a
    failure with the message [No server configured for host <host>]; both
    return normally and leave the world as it was, so no connection is
    opened. *)
Theorem missing_server_is_answered_without_connecting
    (w : world) (serverName command h : string) (timeout : Z) :
  (lookup_server serverName (config w) = None →
   Registry.inherited serverName = false →
   executeCommand serverName command timeout w = (Returned SshDown, w))
  ∧ (Forall (λ entry, host entry.2 ≠ h) (config w) →
     getBatchServerStatus h w
     = (Returned (Failure ("No server configured for host " +:+ h)), w)).
Proof.
  split; [intros Hl _; by apply executeCommand_unknown|].
  intros Hall. unfold getBatchServerStatus. run_op.
  by rewrite find_server_name_none.
Qed.

Lemma missing_server_is_answered_without_connecting_witness :
  executeCommand "ghost" "uptime" 500 Samples.online
    = (Returned SshDown, Samples.online)
  ∧ getBatchServerStatus "other-host" Samples.online
    = (Returned (Failure "No server configured for host other-host"),
       Samples.online).
Proof.
  pose proof (missing_server_is_answered_without_connecting
                Samples.online "ghost" "uptime" "other-host" 500) as [H1 H2].
  split.
  - apply H1; reflexivity.
  - apply H2. repeat constructor. simpl. discriminate.
Defined.

(** *** Restart *)

(** C4. Whatever [stopServer] and [startServer] are: when the stop returns
    a failure without [sshDown], the restart returns that failure in the
    world the stop left, so the start is not run; when the stop succeeds or
    fails with [sshDown], the restart is the start run in that world. *)
Theorem restart_starts_unless_stop_failed_otherwise
    (stop start : string → op result) (serverName : string)
    (w w1 : world) (stopResult : result) :
  stop serverName w = (Returned stopResult, w1) →
  (success stopResult = false → sshDown stopResult = false →
   restartServer_with stop start serverName w = (Returned stopResult, w1))
  ∧ (success stopResult = true ∨ sshDown stopResult = true →
     restartServer_with stop start serverName w = start serverName w1).
Proof.
  intros Hstop. unfold restartServer_with. run_op. rewrite Hstop.
  split.
  - by intros -> ->.
  - by intros [->| ->]; rewrite ?andb_false_r.
Qed.

Lemma restart_starts_unless_stop_failed_otherwise_witness :
  restartServer_with Samples.failing_stop startServer "worker" Samples.online
    = (Returned (Failure "no such session"), Samples.online)
  ∧ restartServer_with (λ _, mret SshDown) startServer "worker"
      Samples.online
    = startServer "worker" Samples.online.
Proof.
  split.
  - apply (restart_starts_unless_stop_failed_otherwise Samples.failing_stop
             startServer "worker" Samples.online Samples.online
             (Failure "no such session") eq_refl); reflexivity.
  - apply (restart_starts_unless_stop_failed_otherwise (λ _, mret SshDown)
             startServer "worker" Samples.online Samples.online
             SshDown eq_refl). right. reflexivity.
Defined.

(** C10. For a server of the registry, [stopServer] never throws and
    returns what [executeCommand] resolved with: a success or the transport
    failure.  The test guarding the abort of [restartServer] is therefore
    false, and the restart goes on with [startServer] as soon as the stop
    has returned. *)
Theorem stop_fails_only_with_sshDown
    (w : world) (serverName : string) (serverConfig : serverConfig) :
  lookup_server serverName (config w) = Some serverConfig →
  match stopServer serverName w with
  | (Returned stopResult, w1) =>
      (success stopResult = true ∨ stopResult = SshDown)
      ∧ negb (success stopResult) && negb (sshDown stopResult) = false
      ∧ restartServer serverName w = startServer serverName w1
  | (Thrown _, _) => False
  | (Pending, w1) => restartServer serverName w = (Pending, w1)
  end.
Proof.
  intros Hl.
  destruct (executeCommand_known serverName
              ("screen -X -S " +:+ screen_name serverConfig +:+ " quit") 0
              w serverConfig Hl) as (c & w1 & Hex & _ & _ & _ & Hshape).
  assert (Hstop : stopServer serverName w = (c, w1)).
  { unfold stopServer, the_server. run_op. by rewrite Hl. }
  unfold restartServer, restartServer_with. run_op. rewrite Hstop.
  destruct c as [r| |]; [|done..].
  pose proof (command_shape_abort r Hshape) as Hab. rewrite Hab.
  split; [|done].
  destruct Hshape as [->|(? & ? & ? & ->)]; eauto.
Qed.

Lemma stop_fails_only_with_sshDown_witness :
  match stopServer "worker" Samples.offline with
  | (Returned stopResult, w1) =>
      (success stopResult = true ∨ stopResult = SshDown)
      ∧ negb (success stopResult) && negb (sshDown stopResult) = false
      ∧ restartServer "worker" Samples.offline = startServer "worker" w1
  | (Thrown _, _) => False
  | (Pending, w1) => restartServer "worker" Samples.offline = (Pending, w1)
  end.
Proof.
  exact (stop_fails_only_with_sshDown Samples.offline "worker"
           Samples.worker eq_refl).
Defined.

(** *** The status cache *)

(** C7. When [getBatchServerStatus] returns a failure, the cache is the one
    it found.  The failure is the message that no server is configured for
    the host, returned without opening a connection, or the transport
    failure tagged with the host. *)
Theorem failed_batch_leaves_cache_untouched
    (w w1 : world) (h : string) (r : result) :
  getBatchServerStatus h w = (Returned r, w1) →
  success r = false →
  screenSessionCache w1 = screenSessionCache w
  ∧ ((r = Failure ("No server configured for host " +:+ h) ∧ w1 = w)
     ∨ r = HostDown h).
Proof.
  unfold getBatchServerStatus. run_op.
  destruct (find_server_name h (config w)) as [name|] eqn:Hf;
    [|intros [= <- <-]; eauto].
  destruct name as [|a name]; [intros [= <- <-]; eauto|].
  destruct (find_server_name_some _ _ _ Hf) as (sc & Hl & _).
  destruct (executeCommand_known (String a name) "screen -ls" 500 w sc Hl)
    as (c & w' & -> & _ & Hcache & _ & Hshape).
  destruct c as [res| |]; [|done..].
  destruct (success res) eqn:Hs; simpl.
  - destruct (command_shape_output res Hshape Hs) as (o & co & sg & ->).
    simpl. by intros [= <- <-].
  - intros [= <- <-] _. eauto.
Qed.

Lemma failed_batch_leaves_cache_untouched_witness :
  screenSessionCache
    (getBatchServerStatus "lab-host" Samples.offline).2
  = screenSessionCache Samples.offline
  ∧ (getBatchServerStatus "lab-host" Samples.offline).1
    = Returned (HostDown "lab-host").
Proof.
  split; [|reflexivity].
  exact (proj1 (failed_batch_leaves_cache_untouched Samples.offline
                  (getBatchServerStatus "lab-host" Samples.offline).2
                  "lab-host" (HostDown "lab-host") eq_refl eq_refl)).
Defined.

Lemma opened_none w : opened w w = O.
Proof. unfold opened. lia. Qed.

Lemma opened_one w w' rq :
  requests w' = requests w ++ [rq] → opened w w' = 1%nat.
Proof. unfold opened. intros ->. rewrite length_app. simpl. lia. Qed.

(** A fresh entry answers the query on the spot. *)
Lemma getServerStatus_hit serverName w serverConfig entry :
  lookup_server serverName (config w) = Some serverConfig →
  screenSessionCache w !! host serverConfig = Some entry →
  now w - timestamp entry < 5000 →
  getServerStatus serverName w
  = (Returned (ServerStatus (includes (sessions entry)
                                      (screen_name serverConfig))), w).
Proof.
  intros Hl Hc Hfresh. unfold getServerStatus, the_server. run_op.
  rewrite Hl. simpl. rewrite Hc. simpl.
  by apply Z.ltb_lt in Hfresh as ->.
Qed.

(** Without a fresh entry the query opens one connection; the cache is
    replaced for the host when the listing came back and is left alone
    otherwise. *)
Lemma getServerStatus_miss serverName w serverConfig :
  lookup_server serverName (config w) = Some serverConfig →
  fresh (now w) (screenSessionCache w !! host serverConfig) = None →
  ∃ c w',
    getServerStatus serverName w = (c, w')
    ∧ opened w w' = 1%nat
    ∧ match c with
      | Returned r =>
          (r = SshDown ∧ screenSessionCache w' = screenSessionCache w)
          ∨ ∃ screenSessions,
              r = ServerStatus (includes screenSessions
                                         (screen_name serverConfig))
              ∧ screenSessionCache w'
                = <[host serverConfig := mkEntry (now w) screenSessions]>
                    (screenSessionCache w)
      | Thrown _ => False
      | Pending => True
      end.
Proof.
  intros Hl Hfresh.
  destruct (executeCommand_known serverName "screen -ls" 500 w serverConfig
              Hl) as (c & w' & Hex & _ & Hcache & Hreq & Hshape).
  unfold getServerStatus, the_server. run_op. rewrite Hl. simpl.
  rewrite Hfresh, Hex.
  apply opened_one in Hreq.
  destruct c as [r| |]; [|by eauto..].
  destruct (success r) eqn:Hs; simpl.
  - destruct (command_shape_output r Hshape Hs) as (o & co & sg & ->).
    simpl. eexists _, _. split; [done|]. split; [done|].
    right. eexists. split; [done|]. simpl. by rewrite Hcache.
  - eexists _, _. split; [done|]. split; [done|]. by left.
Qed.

Lemma getServerStatus_opens_at_most_one serverName w :
  (opened w (getServerStatus serverName w).2 ≤ 1)%nat.
Proof.
  destruct (lookup_server serverName (config w)) as [sc|] eqn:Hl.
  - destruct (fresh (now w) (screenSessionCache w !! host sc)) as [entry|]
      eqn:Hf.
    + unfold fresh in Hf.
      destruct (screenSessionCache w !! host sc) as [entry'|] eqn:Hc;
        [|done].
      destruct (now w - timestamp entry' <? 5000) eqn:Hlt; [|done].
      apply Z.ltb_lt in Hlt.
      rewrite (getServerStatus_hit _ _ _ _ Hl Hc Hlt). simpl.
      rewrite opened_none. lia.
    + destruct (getServerStatus_miss _ _ _ Hl Hf) as (c & w' & Hg & Ho & _).
      rewrite Hg. simpl. by rewrite Ho.
  - unfold getServerStatus, the_server. run_op. rewrite Hl. simpl.
    rewrite opened_none. lia.
Qed.

(** C5 does not hold as stated: a query that fails on the transport
    writes nothing to the cache, so a second query one millisecond later
    opens a second connection. *)
Lemma failed_status_query_is_repeated :
  let first := getServerStatus "worker" Samples.offline in
  let second := getServerStatus "worker" (advance 1 first.2) in
  first.1 = Returned SshDown
  ∧ screenSessionCache first.2 = screenSessionCache Samples.offline
  ∧ now (advance 1 first.2) - now Samples.offline < 5000
  ∧ opened Samples.offline first.2 = 1%nat
  ∧ opened (advance 1 first.2) second.2 = 1%nat
  ∧ length (requests second.2) = 2%nat.
Proof. vm_compute. repeat split. Qed.

(** C5, as the code has it. Let a first [getServerStatus] return a
    success, and let a second one, for a server on the same host, be made
    once the first has returned and less than 5000 ms after the first
    started, the cache entry of the host being the one the first call left
    when it returned.  Then the two calls open at most
    one connection; and when the first call opened it, the entry it wrote
    carries the time at which it started, and the second call is answered
    by membership in that entry's sessions, in a world it leaves as it
    found it. *)
Theorem second_status_query_is_served_from_cache
    (w w1 w2 : world) (name1 name2 : string) (server1 server2 : serverConfig)
    (r1 : result) :
  lookup_server name1 (config w) = Some server1 →
  lookup_server name2 (config w2) = Some server2 →
  host server2 = host server1 →
  getServerStatus name1 w = (Returned r1, w1) →
  success r1 = true →
  screenSessionCache w2 !! host server1
    = screenSessionCache w1 !! host server1 →
  now w2 - now w < 5000 →
  (opened w w1 + opened w2 (getServerStatus name2 w2).2 ≤ 1)%nat
  ∧ (opened w w1 = 1%nat →
     ∃ entry,
       screenSessionCache w1 !! host server1 = Some entry
       ∧ timestamp entry = now w
       ∧ r1 = ServerStatus (includes (sessions entry) (screen_name server1))
       ∧ getServerStatus name2 w2
         = (Returned (ServerStatus (includes (sessions entry)
                                             (screen_name server2))), w2)).
Proof.
  intros Hl1 Hl2 Hhost Hfirst Hs Hsame Hnow.
  destruct (fresh (now w) (screenSessionCache w !! host server1))
    as [entry|] eqn:Hf.
  - (* the first call was a hit *)
    unfold fresh in Hf.
    destruct (screenSessionCache w !! host server1) as [entry'|] eqn:Hc;
      [|done].
    destruct (now w - timestamp entry' <? 5000) eqn:Hlt; [|done].
    apply Z.ltb_lt in Hlt.
    rewrite (getServerStatus_hit _ _ _ _ Hl1 Hc Hlt) in Hfirst.
    injection Hfirst as <- <-. rewrite opened_none. split; [|done].
    apply getServerStatus_opens_at_most_one.
  - (* the first call asked the host *)
    destruct (getServerStatus_miss _ _ _ Hl1 Hf)
      as (c & w' & Hg & Ho & Hc).
    rewrite Hg in Hfirst. injection Hfirst as -> ->.
    destruct Hc as [[-> _]|(ss & -> & Hcache)]; [done|].
    assert (Hentry : screenSessionCache w1 !! host server1
                     = Some (mkEntry (now w) ss))
      by (rewrite Hcache; apply lookup_insert_eq).
    assert (Hsecond : getServerStatus name2 w2
              = (Returned (ServerStatus (includes ss (screen_name server2))),
                 w2)).
    { apply (getServerStatus_hit name2 w2 server2 (mkEntry (now w) ss));
        [done|by rewrite Hhost, Hsame|done]. }
    split.
    + rewrite Hsecond. simpl. rewrite Ho, opened_none. lia.
    + intros _. by exists (mkEntry (now w) ss).
Qed.

Lemma second_status_query_is_served_from_cache_witness :
  let first := getServerStatus "worker" Samples.online in
  let second := getServerStatus "worker" (advance 4000 first.2) in
  first.1 = Returned (ServerStatus true)
  ∧ second = (Returned (ServerStatus true), advance 4000 first.2)
  ∧ (opened Samples.online first.2
     + opened (advance 4000 first.2) second.2 ≤ 1)%nat.
Proof.
  assert (Hnow : now (advance 4000 (getServerStatus "worker"
                                      Samples.online).2)
                 - now Samples.online < 5000) by (vm_compute; reflexivity).
  destruct (second_status_query_is_served_from_cache
              Samples.online (getServerStatus "worker" Samples.online).2
              (advance 4000 (getServerStatus "worker" Samples.online).2)
              "worker" "worker" Samples.worker Samples.worker
              (ServerStatus true)
              eq_refl eq_refl eq_refl eq_refl eq_refl eq_refl Hnow)
    as [Hle Hhit].
  split; [reflexivity|]. split; [reflexivity|exact Hle].
Defined.

(** A batch query that succeeds returns the sessions it parsed and stores
    them for the host, stamped with the time at which it resumed. *)
Lemma getBatchServerStatus_success h w w1 r :
  getBatchServerStatus h w = (Returned r, w1) →
  success r = true →
  ∃ screenSessions,
    r = HostSessions h screenSessions
    ∧ screenSessionCache w1 !! h = Some (mkEntry (now w1) screenSessions).
Proof.
  unfold getBatchServerStatus. run_op.
  destruct (find_server_name h (config w)) as [name|] eqn:Hf;
    [|by intros [= <- <-]].
  destruct name as [|a name]; [by intros [= <- <-]|].
  destruct (find_server_name_some _ _ _ Hf) as (sc & Hl & _).
  destruct (executeCommand_known (String a name) "screen -ls" 500 w sc Hl)
    as (c & w' & -> & _ & _ & _ & Hshape).
  destruct c as [res| |]; [|done..].
  destruct (success res) eqn:Hs; simpl; [|by intros [= <- <-]].
  destruct (command_shape_output res Hshape Hs) as (o & co & sg & ->).
  simpl. intros [= <- <-] _. eexists. split; [done|].
  simpl. apply lookup_insert_eq.
Qed.

(** C6. After a successful [getBatchServerStatus] for a host, a
    [getServerStatus] for a server of that host that starts less than
    5000 ms after the batch query resumed, and finds the cache entry the
    batch query left, answers by membership of the server's session name
    in the very list of sessions the batch query returned, without
    changing the world. *)
Theorem status_after_batch_uses_batch_sessions
    (w w1 w2 : world) (h serverName : string) (serverConfig : serverConfig)
    (r : result) :
  getBatchServerStatus h w = (Returned r, w1) →
  success r = true →
  lookup_server serverName (config w2) = Some serverConfig →
  host serverConfig = h →
  screenSessionCache w2 !! h = screenSessionCache w1 !! h →
  now w2 - now w1 < 5000 →
  ∃ screenSessions,
    r = HostSessions h screenSessions
    ∧ getServerStatus serverName w2
      = (Returned (ServerStatus (includes screenSessions
                                          (screen_name serverConfig))), w2).
Proof.
  intros Hbatch Hs Hl Hh Hsame Hnow.
  destruct (getBatchServerStatus_success _ _ _ _ Hbatch Hs)
    as (ss & -> & Hentry).
  exists ss. split; [done|].
  apply (getServerStatus_hit serverName w2 serverConfig
           (mkEntry (now w1) ss)); [done|by rewrite Hh, Hsame|done].
Qed.

Lemma status_after_batch_uses_batch_sessions_witness :
  let batch := getBatchServerStatus "lab-host" Samples.online in
  batch.1 = Returned (HostSessions "lab-host" ["worker_a"])
  ∧ ∃ screenSessions,
      HostSessions "lab-host" ["worker_a"]
      = HostSessions "lab-host" screenSessions
      ∧ getServerStatus "worker" (advance 4999 batch.2)
        = (Returned (ServerStatus (includes screenSessions "worker_a")),
           advance 4999 batch.2).
Proof.
  split; [reflexivity|].
  assert (Hnow : now (advance 4999 (getBatchServerStatus "lab-host"
                                      Samples.online).2)
                 - now (getBatchServerStatus "lab-host" Samples.online).2
                 < 5000) by (vm_compute; reflexivity).
  exact (status_after_batch_uses_batch_sessions
           Samples.online (getBatchServerStatus "lab-host" Samples.online).2
           (advance 4999 (getBatchServerStatus "lab-host" Samples.online).2)
           "lab-host" "worker" Samples.worker
           (HostSessions "lab-host" ["worker_a"])
           eq_refl eq_refl eq_refl eq_refl eq_refl Hnow).
Defined.

End OrchestratorFacts.

(** ** The remote configuration document *)

Section DocumentFacts.

Import Orchestrator Document.

Variable JSON_parse : string → option json.
Variable JSON_stringify : json → string.
Variable local_date : Z → date.

Ltac run_op :=
  unfold mbind, op_bind, mret, op_ret, gets, modify, throw, never; simpl.

(** Setting a key the object does not have appends it. *)
Lemma set_field_new key value fields :
  key ∉ keys fields → set_field key value fields = fields ++ [(key, value)].
Proof.
  induction fields as [|[k v] fields IH]; simpl; [done|].
  intros Hnot. apply not_elem_of_cons in Hnot as [Hne Hnot].
  destruct (String.eqb k key) eqn:E.
  - apply String.eqb_eq in E. congruence.
  - by rewrite IH.
Qed.

(** The requests of a save whose read resolved and whose document is an
    object: one read, then one write of the extended object. *)
Lemma save_requests w h cfgObj server elapsed outcome network' read fields :
  getServerForHost h (config w) = Some server →
  network w = ReadReply elapsed outcome :: network' →
  read_resolution outcome = Some read →
  existing_document JSON_parse read = JObject fields →
  requests (saveRemoteAflConfig JSON_parse JSON_stringify local_date
              h cfgObj w).2
  = requests w
      ++ [ReadRequest (host server) (username server) (remote_path server);
          WriteRequest (host server) (username server) (remote_path server)
            (JSON_stringify
               (JObject (set_field
                           (timestamp_key (local_date (now w + elapsed)))
                           cfgObj fields)))].
Proof.
  intros Hs Hn Hr He.
  unfold saveRemoteAflConfig, readRemoteFile, writeRemoteFile, connect.
  run_op.
  repeat (first [rewrite Hs | rewrite Hn | rewrite Hr | rewrite He]; simpl).
  destruct network' as [|rp nw]; simpl; [by rewrite <- app_assoc|].
  destruct rp as [d evs|d o|d o]; simpl; try by rewrite <- app_assoc.
  destruct (write_resolution o); simpl; by rewrite <- app_assoc.
Qed.

(** A failed read and a text that does not parse both stand for the empty
    document. *)
Lemma existing_document_fallback :
  (∀ read, success read = false →
           existing_document JSON_parse read = JObject [])
  ∧ (∀ data, JSON_parse data = None →
             existing_document JSON_parse (FileData data) = JObject []).
Proof.
  split.
  - by intros [].
  - intros data Hp. simpl. destruct data; [done|]. by rewrite Hp.
Qed.

(** C9, as the code has it. On a host with a configured server, when the
    read of the remote path resolves and the document it stands for (the
    empty one after a failed read, an empty text or a text that does not
    parse) is a JSON object without the generated timestamp key, the save
    opens a read and then a write of the serialised object made of every
    field read, unchanged and in order, followed by the one new field
    mapping the timestamp key to the snapshot. *)
Theorem save_appends_one_timestamp_key
    (w : world) (h : string) (cfgObj : json) (server : serverConfig)
    (elapsed : Z) (outcome : sftp string) (network' : list reply)
    (read : result) (fields : list (string * json)) :
  getServerForHost h (config w) = Some server →
  network w = ReadReply elapsed outcome :: network' →
  read_resolution outcome = Some read →
  existing_document JSON_parse read = JObject fields →
  timestamp_key (local_date (now w + elapsed)) ∉ keys fields →
  let ts := timestamp_key (local_date (now w + elapsed)) in
  let written := fields ++ [(ts, cfgObj)] in
  requests (saveRemoteAflConfig JSON_parse JSON_stringify local_date
              h cfgObj w).2
  = requests w
      ++ [ReadRequest (host server) (username server) (remote_path server);
          WriteRequest (host server) (username server) (remote_path server)
            (JSON_stringify (JObject written))]
  ∧ (∀ field, field ∈ fields → field ∈ written)
  ∧ keys written = keys fields ++ [ts]
  ∧ (ts, cfgObj) ∈ written.
Proof.
  intros Hs Hn Hr He Hnew ts written.
  split; [|split; [|split]].
  - rewrite (save_requests w h cfgObj server elapsed outcome network' read
               fields Hs Hn Hr He).
    fold ts. by rewrite set_field_new.
  - intros field Hin. apply elem_of_app. by left.
  - unfold written, keys. by rewrite map_app.
  - apply elem_of_app. right. apply list_elem_of_singleton. done.
Qed.

End DocumentFacts.

Section DocumentExamples.

Import Orchestrator Document Samples.

Lemma save_appends_one_timestamp_key_witness :
  requests (saveRemoteAflConfig parse stringify calendar "lab-host" snapshot
              (holding old_text)).2
  = [ReadRequest "lab-host" "afl" "/home/afl/.afl/config.json";
     WriteRequest "lab-host" "afl" "/home/afl/.afl/config.json"
       (stringify
          (JObject [("24/01/02 03:04:05.006000"%string, JObject []);
                    ("24/03/02 04:05:06.047000"%string, snapshot)]))].
Proof.
  assert (Hnew : timestamp_key (calendar (now (holding old_text) + 40))
                 ∉ keys [("24/01/02 03:04:05.006000"%string, JObject [])]).
  { vm_compute. intros H. apply list_elem_of_singleton in H. discriminate. }
  exact (proj1 (save_appends_one_timestamp_key parse stringify calendar
                  (holding old_text) "lab-host" snapshot worker 40
                  (SftpDone old_text) [WriteReply 40 (SftpDone tt)]
                  (FileData old_text)
                  [("24/01/02 03:04:05.006000"%string, JObject [])]
                  eq_refl eq_refl eq_refl eq_refl Hnew)).
Defined.

(** C9 does not hold as stated: when the remote file holds a JSON array,
    the text written back is that array, without any timestamp key; when
    it holds [null], the save throws after the read and writes nothing. *)
Lemma save_on_array_or_null_adds_no_key :
  let on_array :=
    saveRemoteAflConfig parse stringify calendar "lab-host" snapshot
      (holding "[]") in
  let on_null :=
    saveRemoteAflConfig parse stringify calendar "lab-host" snapshot
      (holding "null") in
  getServerForHost "lab-host" (config (holding "[]")) = Some worker
  ∧ on_array.1 = Returned FileWritten
  ∧ requests on_array.2
    = [ReadRequest "lab-host" "afl" "/home/afl/.afl/config.json";
       WriteRequest "lab-host" "afl" "/home/afl/.afl/config.json" "[]"]
  ∧ on_null.1 = Thrown TypeError
  ∧ requests on_null.2
    = [ReadRequest "lab-host" "afl" "/home/afl/.afl/config.json"].
Proof. vm_compute. repeat split. Qed.

End DocumentExamples.

(** ** Further properties of the transport session *)

Section MoreTransportFacts.

Import Transport Streams.

#[local] Arguments String.append !_ _ / : simpl nomatch.

Lemma append_assoc (a b c : string) : (a +:+ b) +:+ c = a +:+ (b +:+ c).
Proof. induction a as [|x a IH]; simpl; [done|]. by rewrite IH. Qed.

Lemma append_empty_r (a : string) : a +:+ EmptyString = a.
Proof. induction a as [|x a IH]; simpl; [done|]. by rewrite IH. Qed.

(** Chunks arriving on an open stream of an unsettled call only grow its
    buffer. *)
Lemma run_data_events chunks tm ex output en de :
  run (mkState tm false [] ex [output] en de) (map data_event chunks)
  = mkState tm false [] ex [output +:+ glue chunks] en de.
Proof.
  revert output. induction chunks as [|[[] text] chunks IH]; intros output.
  - simpl. by rewrite append_empty_r.
  - simpl. unfold on_data, set_streams. simpl. rewrite IH.
    by rewrite append_assoc.
  - simpl. unfold on_data, set_streams. simpl. rewrite IH.
    by rewrite append_assoc.
Qed.

Lemma ended_stays st e : ended st = true → ended (step st e) = true.
Proof.
  intros Hd. destruct st as [tm se rs ex ss en de]; simpl in Hd; subst en.
  destruct e; simpl;
    unfold on_ready, on_error, on_exec_failed, on_exec_stream, on_data,
      on_close, on_timeout, settle;
    simpl; repeat case_match; done.
Qed.

Lemma run_ended_stays evs st : ended st = true → ended (run st evs) = true.
Proof.
  revert st. induction evs as [|e evs IH]; intros st Hd; [done|].
  simpl. by apply IH, ended_stays.
Qed.

(** X1. When the connection becomes ready, the stream opens, chunks arrive
    on standard output and standard error in any interleaving and the
    stream closes, the call resolves once, with the close code and signal
    and with the chunks of both channels glued in arrival order; whatever
    comes later changes nothing, and [conn.end()] has been called. *)
Theorem output_is_the_chunks_in_arrival_order
    (timeout : Z) (chunks : list (channel * string))
    (code : option Z) (signal : option string) (late : list event) :
  let st := run (init timeout)
              ([ConnReady; ExecStream] ++ map data_event chunks
                 ++ StreamClose 0 code signal :: late) in
  resolved st = [CommandOutput (glue chunks) code signal]
  ∧ ended st = true.
Proof.
  intros st. subst st. rewrite !run_app.
  change (run (init timeout) [ConnReady; ExecStream])
    with (mkState false false [] 0 [EmptyString] false false).
  rewrite run_data_events. cbn [run fold_left]. simpl.
  fold (run (mkState false true [CommandOutput (glue chunks) code signal]
                     0 [glue chunks] true false) late).
  split; [by apply run_settled|by apply run_ended_stays].
Qed.

Lemma torn_down_step st e :
  e ≠ ConnError → torn_down st → torn_down (step st e).
Proof.
  unfold torn_down. intros He Ht.
  destruct st as [tm se rs ex ss en de]; simpl in *.
  destruct e; try done; simpl;
    unfold on_ready, on_exec_failed, on_exec_stream, on_data, on_close,
      on_timeout, settle;
    simpl; repeat case_match; simpl; auto.
Qed.

Lemma torn_down_run evs st :
  ConnError ∉ evs → torn_down st → torn_down (run st evs).
Proof.
  revert st. induction evs as [|e evs IH]; intros st Hno Ht; [done|].
  apply not_elem_of_cons in Hno as [He Hno].
  simpl. apply IH; [done|]. by apply torn_down_step.
Qed.

(** X2. A call that has resolved without any connection error has had its
    connection given up: [conn.end()] or [conn.destroy()] was called. *)
Theorem resolution_without_error_tears_down
    (timeout : Z) (evs : list event) :
  ConnError ∉ evs →
  resolved (run (init timeout) evs) ≠ [] →
  ended (run (init timeout) evs) = true
  ∨ destroyed (run (init timeout) evs) = true.
Proof.
  intros Hno Hres.
  destruct (torn_down_run evs (init timeout) Hno) as [?|?]; [by left|done..].
Qed.

Lemma resolution_without_error_tears_down_witness :
  ended (run (init 500) [ConnReady; ExecFailed]) = true
  ∨ destroyed (run (init 500) [ConnReady; ExecFailed]) = true.
Proof.
  apply (resolution_without_error_tears_down 500 [ConnReady; ExecFailed]).
  - intros H. repeat (apply elem_of_cons in H as [H|H]; [discriminate|]).
    by apply elem_of_nil in H.
  - discriminate.
Defined.

(** Without a pending timer the connection is not destroyed. *)
Lemma never_destroyed_step st e :
  timer st = false → destroyed st = false →
  timer (step st e) = false ∧ destroyed (step st e) = false.
Proof.
  destruct st as [tm se rs ex ss en de]; simpl. intros -> ->.
  destruct e; simpl;
    unfold on_ready, on_error, on_exec_failed, on_exec_stream, on_data,
      on_close, on_timeout, settle;
    simpl; repeat case_match; done.
Qed.

Lemma never_destroyed_run evs st :
  timer st = false → destroyed st = false →
  timer (run st evs) = false ∧ destroyed (run st evs) = false.
Proof.
  revert st. induction evs as [|e evs IH]; intros st Ht Hd; [done|].
  destruct (never_destroyed_step st e Ht Hd). simpl. by apply IH.
Qed.

Lemma step_idle st e :
  timer st = false → execs st = O → streams st = [] →
  e ≠ ConnReady → e ≠ ConnError → step st e = st.
Proof.
  destruct st as [tm se rs ex ss en de]; simpl. intros -> -> -> ? ?.
  by destruct e.
Qed.

(** X3. A call without a time bound (timeout 0 or less, as [startServer],
    [stopServer], [getServerLog] and [joinServer] make it) never destroys
    its connection; and as long as the connection neither becomes ready nor
    reports an error, it does not resolve, whatever else is delivered. *)
Theorem unbounded_call_waits_for_the_connection
    (timeout : Z) (evs : list event) :
  timeout ≤ 0 →
  destroyed (run (init timeout) evs) = false
  ∧ (Forall (λ e, e ≠ ConnReady ∧ e ≠ ConnError) evs →
     run (init timeout) evs = init timeout
     ∧ promise (run (init timeout) evs) = None).
Proof.
  intros Hle.
  assert (Hinit : init timeout = mkState false false [] 0 [] false false).
  { unfold init. by apply Z.ltb_ge in Hle as ->. }
  split.
  - by apply never_destroyed_run; rewrite Hinit.
  - intros Hall.
    assert (Hrun : run (init timeout) evs = init timeout).
    { rewrite Hinit. induction Hall as [|e evs [? ?] _ IH]; [done|].
      simpl. by rewrite step_idle. }
    split; [done|]. by rewrite Hrun, Hinit.
Qed.

Lemma unbounded_call_waits_for_the_connection_witness :
  destroyed (run (init 0) [TimeoutElapsed; ExecFailed]) = false
  ∧ promise (run (init 0) [TimeoutElapsed; ExecFailed]) = None.
Proof.
  assert (H0 : 0 ≤ 0) by lia.
  destruct (unbounded_call_waits_for_the_connection 0
              [TimeoutElapsed; ExecFailed] H0) as [Hd Hrest].
  split; [exact Hd|].
  apply Hrest. repeat constructor; discriminate.
Defined.

(** X4. Once the connection has been ready, the timeout elapsing is without
    any effect: the run is the one in which it did not elapse. *)
Theorem timeout_is_void_after_ready
    (timeout : Z) (pre post : list event) :
  ConnReady ∈ pre →
  run (init timeout) (pre ++ TimeoutElapsed :: post)
  = run (init timeout) (pre ++ post).
Proof.
  intros Hin. rewrite !run_app.
  assert (Ht : timer (run (init timeout) pre) = false).
  { apply list_elem_of_split in Hin as (l1 & l2 & ->).
    rewrite run_app. cbn [run fold_left].
    by apply (run_timer_stays_cleared l2). }
  change (run (run (init timeout) pre) (TimeoutElapsed :: post))
    with (run (on_timeout (run (init timeout) pre)) post).
  unfold on_timeout. by rewrite Ht.
Qed.

Lemma timeout_is_void_after_ready_witness :
  run (init 100) ([ConnReady; ExecStream] ++ TimeoutElapsed
                    :: [StreamClose 0 (Some 0) None])
  = run (init 100) ([ConnReady; ExecStream] ++ [StreamClose 0 (Some 0) None]).
Proof.
  apply (timeout_is_void_after_ready 100 [ConnReady; ExecStream]).
  apply list_elem_of_here.
Defined.

End MoreTransportFacts.

(** ** Further properties of the session-listing parser *)

Section MoreParserFacts.

Import Sessions.

#[local] Arguments String.append !_ _ / : simpl nomatch.

Lemma split_lines_nonempty s : split_lines s ≠ [].
Proof.
  destruct s as [|c s]; simpl; [done|].
  destruct (Ascii.eqb c newline); [done|].
  by destruct (split_lines s).
Qed.

Lemma join_cons separator part parts :
  parts ≠ [] →
  Samples.join separator (part :: parts)
  = part +:+ separator +:+ Samples.join separator parts.
Proof. by destruct parts. Qed.

(** X5. Splitting a text into lines loses nothing: joining the lines with
    line feeds gives the text back, and no line holds a line feed. *)
Theorem split_lines_join (s : string) :
  Samples.join (String newline EmptyString) (split_lines s) = s
  ∧ Forall (all_chars (λ c, negb (Ascii.eqb c newline))) (split_lines s).
Proof.
  induction s as [|c s [IHj IHf]]; simpl.
  - split; [done|]. repeat constructor.
  - pose proof (split_lines_nonempty s) as Hne.
    destruct (Ascii.eqb c newline) eqn:Hc.
    + apply Ascii.eqb_eq in Hc as ->. split.
      * rewrite join_cons by done. simpl. by rewrite IHj.
      * constructor; [constructor|done].
    + destruct (split_lines s) as [|l ls] eqn:Hs; [done|].
      split.
      * destruct ls as [|l' ls]; [simpl in *; by rewrite IHj|].
        rewrite join_cons by done. rewrite join_cons in IHj by done.
        simpl in *. by rewrite IHj.
      * inversion IHf as [|? ? Hl Hls]; subst.
        constructor; [|done]. constructor; [by rewrite Hc|done].
Qed.

Lemma split_lines_append a b :
  split_lines (a +:+ String newline b) = split_lines a ++ split_lines b.
Proof.
  induction a as [|c a IH]; simpl.
  - by rewrite ?Ascii.eqb_refl.
  - destruct (Ascii.eqb c newline); [by rewrite IH|].
    rewrite IH. pose proof (split_lines_nonempty a) as Hne.
    by destruct (split_lines a).
Qed.

Lemma collect_acc acc lines : collect acc lines = acc ++ collect [] lines.
Proof.
  revert acc. induction lines as [|l lines IH]; intros acc; simpl.
  - by rewrite app_nil_r.
  - destruct (captured l) as [name|]; [|done].
    rewrite (IH (acc ++ [name])), (IH [name]). by rewrite <- app_assoc.
Qed.

(** X6. The sessions of a listing are found line by line: the sessions of
    two texts put one after the other with a line feed in between are the
    sessions of the first followed by those of the second. *)
Theorem parse_sessions_append (a b : string) :
  parse_sessions (a +:+ String newline b)
  = parse_sessions a ++ parse_sessions b.
Proof.
  unfold parse_sessions. rewrite split_lines_append, collect_app.
  apply collect_acc.
Qed.

Lemma span_maximal p s run rest :
  span p s = (run, rest) →
  rest = EmptyString ∨ ∃ c rest', rest = String c rest' ∧ p c = false.
Proof.
  revert run rest. induction s as [|c s IH]; intros run rest; simpl.
  - intros [= <- <-]. by left.
  - destruct (p c) eqn:Hc.
    + destruct (span p s) as [run' rest'] eqn:Hs. intros [= <- <-].
      by eapply IH.
    + intros [= <- <-]. right. eauto.
  Qed.

Lemma match_here_maximal s name :
  match_here s = Some name →
  ∃ digits after,
    s = digits +:+ "." +:+ name +:+ after
    ∧ digits ≠ EmptyString ∧ all_chars is_digit digits
    ∧ name ≠ EmptyString ∧ all_chars is_name_char name
    ∧ (after = EmptyString
       ∨ ∃ c after', after = String c after' ∧ is_name_char c = false).
Proof.
  unfold match_here.
  destruct (span is_digit s) as [digits rest] eqn:Hd.
  destruct digits as [|d digits]; [done|].
  destruct rest as [|c rest]; [done|].
  destruct (Ascii.eqb c ".") eqn:Hc; [|done].
  apply Ascii.eqb_eq in Hc as ->.
  destruct (span is_name_char rest) as [nm after] eqn:Hn.
  destruct nm as [|n nm]; [done|]. intros [= <-].
  pose proof (span_maximal _ _ _ _ Hn) as Hmax.
  apply span_spec in Hd as [-> Hdig]. apply span_spec in Hn as [-> Hnm].
  by exists (String d digits), after.
Qed.

Lemma captured_token (line name : string) :
  captured line = Some name →
  ∃ before digits after,
    line = before +:+ digits +:+ "." +:+ name +:+ after
    ∧ digits ≠ EmptyString ∧ all_chars is_digit digits
    ∧ name ≠ EmptyString ∧ all_chars is_name_char name
    ∧ (after = EmptyString
       ∨ ∃ c after', after = String c after' ∧ is_name_char c = false).
Proof.
  rewrite captured_is_match.
  induction line as [|c line IH]; cbn [match_session].
  - destruct (match_here EmptyString) eqn:Hm; [|done]. intros [= ->].
    destruct (match_here_maximal _ _ Hm) as (digits & after & ?).
    by exists EmptyString, digits, after.
  - destruct (match_here (String c line)) eqn:Hm.
    + intros [= ->].
      destruct (match_here_maximal _ _ Hm) as (digits & after & ?).
      by exists EmptyString, digits, after.
    + intros Hrec.
      destruct (IH Hrec) as (before & digits & after & -> & ?).
      by exists (String c before), digits, after.
Qed.

(** X7. A name captured on a line is a whole token: it follows a non-empty
    run of digits and a dot, it is not empty, it holds no white space, and
    it runs up to the end of the line or to the next white space. *)
Theorem captured_name_is_a_whole_token (line name : string) :
  captured line = Some name →
  ∃ before digits after,
    line = before +:+ digits +:+ "." +:+ name +:+ after
    ∧ digits ≠ EmptyString ∧ all_chars is_digit digits
    ∧ name ≠ EmptyString ∧ all_chars is_name_char name
    ∧ (after = EmptyString
       ∨ ∃ c after', after = String c after' ∧ is_name_char c = false).
Proof. apply captured_token. Qed.

Lemma captured_name_is_a_whole_token_witness :
  ∃ before digits after,
    ("No 12.a.b" +:+ String tab "x")%string
    = before +:+ digits +:+ "." +:+ "a.b" +:+ after
    ∧ digits ≠ EmptyString ∧ all_chars is_digit digits
    ∧ "a.b"%string ≠ EmptyString ∧ all_chars is_name_char "a.b"
    ∧ (after = EmptyString
       ∨ ∃ c after', after = String c after' ∧ is_name_char c = false).
Proof.
  exact (captured_name_is_a_whole_token
           ("No 12.a.b" +:+ String tab "x") "a.b" eq_refl).
Defined.

Lemma collect_bounds acc lines :
  (length (collect acc lines) ≤ length acc + length lines)%nat
  ∧ (Forall (λ name, name ≠ EmptyString ∧ all_chars is_name_char name)
            acc →
     Forall (λ name, name ≠ EmptyString ∧ all_chars is_name_char name)
            (collect acc lines)).
Proof.
  revert acc. induction lines as [|l lines IH]; intros acc; simpl.
  - split; [lia|done].
  - destruct (captured l) as [name|] eqn:Hc.
    + destruct (IH (acc ++ [name])) as [Hlen Hall]. split.
      * rewrite length_app in Hlen. simpl in Hlen. lia.
      * intros Hacc. apply Hall. apply Forall_app. split; [done|].
        constructor; [|done].
        destruct (captured_token _ _ Hc)
          as (? & ? & ? & _ & _ & _ & ? & ? & _).
        done.
    + destruct (IH acc) as [Hlen Hall]. split; [lia|done].
Qed.

(** X8. A listing yields at most one session per line, and every session
    name it yields is non-empty and free of white space. *)
Theorem parse_sessions_bounds (output : string) :
  (length (parse_sessions output) ≤ length (split_lines output))%nat
  ∧ Forall (λ name, name ≠ EmptyString ∧ all_chars is_name_char name)
           (parse_sessions output).
Proof.
  unfold parse_sessions.
  destruct (collect_bounds [] (split_lines output)) as [Hlen Hall].
  split; [done|]. by apply Hall.
Qed.

End MoreParserFacts.

(** ** Further properties of the lifecycle operations and the cache *)

Section MoreOrchestratorFacts.

Import Transport Sessions Orchestrator Frames.

Ltac run_op :=
  unfold mbind, op_bind, mret, op_ret, gets, modify, throw, never; simpl.

(** X9. The methods that read a field of the registry entry throw a
    [TypeError] when the name has no entry and is not a property name every
    object inherits from [Object.prototype], and leave the world as it is:
    no connection is opened and the cache is not touched. *)
Theorem missing_entry_throws (w : world) (serverName : string) (lines : Z) :
  lookup_server serverName (config w) = None →
  Registry.inherited serverName = false →
  startServer serverName w = (Thrown TypeError, w)
  ∧ stopServer serverName w = (Thrown TypeError, w)
  ∧ restartServer serverName w = (Thrown TypeError, w)
  ∧ getServerStatus serverName w = (Thrown TypeError, w)
  ∧ getServerLog serverName lines w = (Thrown TypeError, w)
  ∧ joinServer serverName w = (Thrown TypeError, w).
Proof.
  intros Hl _.
  unfold restartServer, restartServer_with, startServer, stopServer,
    getServerStatus, getServerLog, joinServer, the_server.
  run_op. by rewrite Hl.
Qed.

Lemma missing_entry_throws_witness :
  restartServer "ghost" Samples.online = (Thrown TypeError, Samples.online)
  ∧ getServerStatus "ghost" Samples.online
    = (Thrown TypeError, Samples.online).
Proof.
  pose proof (missing_entry_throws Samples.online "ghost" 200 eq_refl
                eq_refl) as (_ & _ & H3 & H4 & _).
  exact (conj H3 H4).
Defined.

Lemma startServer_without_spec w serverName serverConfig :
  lookup_server serverName (config w) = Some serverConfig →
  truthy (server_module serverConfig) = false →
  truthy (server_script serverConfig) = false →
  startServer serverName w
  = (Returned (Failure
       "Neither server_module nor server_script specified in config"), w).
Proof.
  intros Hl Hm Hs. unfold startServer, the_server. run_op.
  rewrite Hl. simpl. by rewrite Hm, Hs.
Qed.

(** X10. [restartServer] on a registered server that has neither a module
    nor a script, an empty string counting as none, still stops it: once
    the stop has returned, the connection carrying
    [screen -X -S <screen_name> quit] has been opened, and only then does
    the restart return the failure about the missing launch spec. *)
Theorem restart_without_launch_spec_still_stops
    (w w1 : world) (serverName : string) (serverConfig : serverConfig)
    (stopResult : result) :
  lookup_server serverName (config w) = Some serverConfig →
  truthy (server_module serverConfig) = false →
  truthy (server_script serverConfig) = false →
  stopServer serverName w = (Returned stopResult, w1) →
  restartServer serverName w
  = (Returned (Failure
       "Neither server_module nor server_script specified in config"), w1)
  ∧ requests w1
    = requests w
        ++ [ExecRequest (host serverConfig) (username serverConfig)
              ("screen -X -S " +:+ screen_name serverConfig +:+ " quit") 0].
Proof.
  intros Hl Hm Hs Hstop.
  destruct (executeCommand_known serverName
              ("screen -X -S " +:+ screen_name serverConfig +:+ " quit") 0
              w serverConfig Hl) as (c & w' & Hex & Hcfg & _ & Hreq & Hshape).
  assert (Hstop' : stopServer serverName w = (c, w')).
  { unfold stopServer, the_server. run_op. by rewrite Hl. }
  rewrite Hstop in Hstop'. injection Hstop' as <- <-.
  split; [|done].
  unfold restartServer, restartServer_with. run_op. rewrite Hstop.
  rewrite (command_shape_abort _ Hshape).
  apply (startServer_without_spec w1 serverName serverConfig);
    [by rewrite Hcfg|done..].
Qed.

Lemma restart_without_launch_spec_still_stops_witness :
  restartServer "bare" MoreSamples.obliging
  = (Returned (Failure
       "Neither server_module nor server_script specified in config"),
     (stopServer "bare" MoreSamples.obliging).2)
  ∧ requests (stopServer "bare" MoreSamples.obliging).2
    = [ExecRequest "lab-host" "afl" "screen -X -S bare quit" 0].
Proof.
  exact (restart_without_launch_spec_still_stops MoreSamples.obliging
           (stopServer "bare" MoreSamples.obliging).2 "bare" MoreSamples.bare
           (CommandOutput EmptyString (Some 0) None)
           eq_refl eq_refl eq_refl eq_refl).
Defined.

Lemma quiet_refl n w : quiet n w w.
Proof.
  split; [|done]. split; [done|]. exists []. rewrite app_nil_r. split; [done|].
  simpl. lia.
Qed.

Lemma executeCommand_quiet serverName command timeout w :
  quiet 1 w (executeCommand serverName command timeout w).2.
Proof.
  destruct (lookup_server serverName (config w)) as [sc|] eqn:Hl.
  - destruct (executeCommand_known serverName command timeout w sc Hl)
      as (c & w' & -> & Hcfg & Hcache & Hreq & _).
    simpl. split; [|done]. split; [done|]. eauto.
  - rewrite executeCommand_unknown by done. apply quiet_refl.
Qed.

Lemma quiet_trans n m w w1 w2 :
  quiet n w w1 → quiet m w1 w2 → quiet (n + m) w w2.
Proof.
  intros [[Hc1 (o1 & Hr1 & Hl1)] Hs1] [[Hc2 (o2 & Hr2 & Hl2)] Hs2].
  split; [|congruence]. split; [congruence|].
  exists (o1 ++ o2). rewrite Hr2, Hr1, <- app_assoc. split; [done|].
  rewrite length_app. lia.
Qed.

Lemma quiet_weaken n m w w' : (n ≤ m)%nat → quiet n w w' → quiet m w w'.
Proof.
  intros Hle [[Hc (o & Hr & Hl)] Hs]. split; [|done]. split; [done|].
  exists o. split; [done|lia].
Qed.

Lemma startServer_quiet serverName w : quiet 1 w (startServer serverName w).2.
Proof.
  unfold startServer, the_server. run_op.
  destruct (lookup_server serverName (config w)) as [sc|]; simpl;
    [|apply quiet_refl].
  destruct (truthy (server_module sc)); [apply executeCommand_quiet|].
  destruct (truthy (server_script sc)); [apply executeCommand_quiet|].
  apply quiet_refl.
Qed.

Lemma stopServer_quiet serverName w : quiet 1 w (stopServer serverName w).2.
Proof.
  unfold stopServer, the_server. run_op.
  destruct (lookup_server serverName (config w)) as [sc|]; simpl;
    [apply executeCommand_quiet|apply quiet_refl].
Qed.

(** X11. The lifecycle calls leave the registry and the session cache as
    they found them and open one connection at most; [restartServer] opens
    two at most, the one of the stop and the one of the start. *)
Theorem lifecycle_calls_are_quiet
    (w : world) (serverName command : string) (timeout lines : Z) :
  quiet 1 w (executeCommand serverName command timeout w).2
  ∧ quiet 1 w (startServer serverName w).2
  ∧ quiet 1 w (stopServer serverName w).2
  ∧ quiet 2 w (restartServer serverName w).2
  ∧ quiet 1 w (getServerLog serverName lines w).2
  ∧ quiet 1 w (joinServer serverName w).2.
Proof.
  split; [apply executeCommand_quiet|].
  split; [apply startServer_quiet|].
  split; [apply stopServer_quiet|].
  split; [|split].
  - pose proof (stopServer_quiet serverName w) as Hstop.
    unfold restartServer, restartServer_with. run_op.
    destruct (stopServer serverName w) as [[r| |] w1]; simpl in *;
      [|apply (quiet_weaken 1); [lia|done]..].
    destruct (negb (success r) && negb (sshDown r)); simpl;
      [apply (quiet_weaken 1); [lia|done]|].
    apply (quiet_trans 1 1 w w1); [done|apply startServer_quiet].
  - unfold getServerLog, the_server. run_op.
    destruct (lookup_server serverName (config w)) as [sc|]; simpl;
      [apply executeCommand_quiet|apply quiet_refl].
  - unfold joinServer, the_server. run_op.
    destruct (lookup_server serverName (config w)) as [sc|]; simpl;
      [apply executeCommand_quiet|apply quiet_refl].
Qed.

Lemma connects_at_most_refl n w : connects_at_most n w w.
Proof. apply quiet_refl. Qed.

Lemma set_cache_frame h entry n w w' :
  connects_at_most n w w' → connects_at_most n w (set_cache h entry w').
Proof. done. Qed.

(** The status query of a registered server, spelled out. *)
Lemma getServerStatus_known serverName w serverConfig :
  lookup_server serverName (config w) = Some serverConfig →
  (∃ entry,
      screenSessionCache w !! host serverConfig = Some entry
      ∧ now w - timestamp entry < 5000
      ∧ getServerStatus serverName w
        = (Returned (ServerStatus (includes (sessions entry)
                                            (screen_name serverConfig))), w))
  ∨ (fresh (now w) (screenSessionCache w !! host serverConfig) = None
     ∧ ∃ c w',
         executeCommand serverName "screen -ls" 500 w = (c, w')
         ∧ quiet 1 w w'
         ∧ getServerStatus serverName w
           = match c with
             | Returned (CommandOutput output _ _) =>
                 (Returned (ServerStatus (includes (parse_sessions output)
                                            (screen_name serverConfig))),
                  set_cache (host serverConfig)
                            (mkEntry (now w) (parse_sessions output)) w')
             | Returned _ => (Returned SshDown, w')
             | Thrown e => (Thrown e, w')
             | Pending => (Pending, w')
             end).
Proof.
  intros Hl.
  destruct (fresh (now w) (screenSessionCache w !! host serverConfig))
    as [entry|] eqn:Hf.
  - left. unfold fresh in Hf.
    destruct (screenSessionCache w !! host serverConfig) as [entry'|] eqn:Hc;
      [|done].
    destruct (now w - timestamp entry' <? 5000) eqn:Hlt; [|done].
    apply Z.ltb_lt in Hlt. exists entry'.
    split; [done|]. split; [done|]. by apply getServerStatus_hit.
  - right. split; [done|].
    pose proof (executeCommand_quiet serverName "screen -ls" 500 w) as Hq.
    destruct (executeCommand_known serverName "screen -ls" 500 w serverConfig
                Hl) as (c & w' & Hex & _ & _ & _ & Hshape).
    rewrite Hex in Hq. exists c, w'. split; [done|]. split; [done|].
    unfold getServerStatus, the_server. run_op. rewrite Hl. simpl.
    rewrite Hf, Hex.
    destruct c as [r| |]; [|done..].
    by destruct Hshape as [->|(o & co & sg & ->)].
Qed.

(** The batch query of a host that has a named server, spelled out. *)
Lemma getBatchServerStatus_known h w a name :
  find_server_name h (config w) = Some (String a name) →
  ∃ serverConfig c w',
    lookup_server (String a name) (config w) = Some serverConfig
    ∧ host serverConfig = h
    ∧ executeCommand (String a name) "screen -ls" 500 w = (c, w')
    ∧ quiet 1 w w'
    ∧ requests w'
      = requests w ++ [ExecRequest h (username serverConfig) "screen -ls" 500]
    ∧ getBatchServerStatus h w
      = match c with
        | Returned (CommandOutput output _ _) =>
            (Returned (HostSessions h (parse_sessions output)),
             set_cache h (mkEntry (now w') (parse_sessions output)) w')
        | Returned _ => (Returned (HostDown h), w')
        | Thrown e => (Thrown e, w')
        | Pending => (Pending, w')
        end.
Proof.
  intros Hf.
  destruct (find_server_name_some _ _ _ Hf) as (sc & Hl & Hh).
  pose proof (executeCommand_quiet (String a name) "screen -ls" 500 w) as Hq.
  destruct (executeCommand_known (String a name) "screen -ls" 500 w sc Hl)
    as (c & w' & Hex & _ & _ & Hreq & Hshape).
  rewrite Hex in Hq. rewrite Hh in Hreq. exists sc, c, w'.
  do 5 (split; [done|]).
  unfold getBatchServerStatus. run_op. rewrite Hf, Hex.
  destruct c as [r| |]; [|done..].
  by destruct Hshape as [->|(o & co & sg & ->)].
Qed.

Lemma set_cache_elsewhere h entry w w0 :
  screenSessionCache w0 = screenSessionCache w →
  cache_same_elsewhere h w (set_cache h entry w0).
Proof.
  intros Hc h' Hne. simpl. rewrite Hc. by apply lookup_insert_ne.
Qed.

(** X12. The status queries read the registry without changing it and open
    one connection at most.  [getServerStatus] can only change the cache
    entry of the server's host and [getBatchServerStatus] that of the host
    asked for: the entries of all other hosts stay as they were. *)
Theorem status_queries_touch_one_cache_entry
    (w : world) (serverName h : string) :
  connects_at_most 1 w (getServerStatus serverName w).2
  ∧ connects_at_most 1 w (getBatchServerStatus h w).2
  ∧ cache_same_elsewhere h w (getBatchServerStatus h w).2
  ∧ ∀ serverConfig,
      lookup_server serverName (config w) = Some serverConfig →
      cache_same_elsewhere (host serverConfig) w
                           (getServerStatus serverName w).2.
Proof.
  assert (Hbatch : connects_at_most 1 w (getBatchServerStatus h w).2
                   ∧ cache_same_elsewhere h w (getBatchServerStatus h w).2).
  { destruct (find_server_name h (config w)) as [[|a name]|] eqn:Hf.
    - unfold getBatchServerStatus. run_op. rewrite Hf. simpl.
      split; [apply connects_at_most_refl|done].
    - destruct (getBatchServerStatus_known _ _ _ _ Hf)
        as (sc & c & w' & _ & _ & _ & [Hq Hcache] & _ & ->).
      destruct c as [[]| |]; simpl; (split; [done|]);
        first [by apply set_cache_elsewhere | by intros ? ?; rewrite Hcache].
    - unfold getBatchServerStatus. run_op. rewrite Hf. simpl.
      split; [apply connects_at_most_refl|done]. }
  destruct Hbatch as [Hb1 Hb2].
  destruct (lookup_server serverName (config w)) as [sc|] eqn:Hl.
  - assert (Hstatus : connects_at_most 1 w (getServerStatus serverName w).2
                      ∧ cache_same_elsewhere (host sc) w
                          (getServerStatus serverName w).2).
    { destruct (getServerStatus_known _ _ _ Hl)
        as [(entry & _ & _ & ->)|(_ & c & w' & _ & [Hq Hcache] & ->)].
      - split; [apply connects_at_most_refl|done].
      - destruct c as [[]| |]; simpl; (split; [done|]);
          first [by apply set_cache_elsewhere
                | by intros ? ?; rewrite Hcache]. }
    destruct Hstatus as [Hs1 Hs2].
    do 3 (split; [done|]). by intros ? [= <-].
  - split; [|by split].
    unfold getServerStatus, the_server. run_op. rewrite Hl. simpl.
    apply connects_at_most_refl.
Qed.

Lemma status_queries_touch_one_cache_entry_witness :
  cache_same_elsewhere "lab-host" Samples.online
    (getServerStatus "worker" Samples.online).2.
Proof.
  pose proof (status_queries_touch_one_cache_entry Samples.online "worker"
                "lab-host") as (_ & _ & _ & H).
  exact (H Samples.worker eq_refl).
Defined.

(** X13. A [getServerStatus] that does not return a success leaves the
    whole cache as it found it: a transport failure, returned as
    [{success:false, sshDown:true}], neither refreshes nor removes a stale
    entry, and neither does a call that throws or stays pending. *)
Theorem unsuccessful_status_query_leaves_cache (w : world)
    (serverName : string) :
  match getServerStatus serverName w with
  | (Returned r, w') =>
      success r = true
      ∨ (r = SshDown ∧ screenSessionCache w' = screenSessionCache w)
  | (_, w') => screenSessionCache w' = screenSessionCache w
  end.
Proof.
  destruct (lookup_server serverName (config w)) as [sc|] eqn:Hl.
  - destruct (getServerStatus_known _ _ _ Hl)
      as [(entry & _ & _ & ->)|(_ & c & w' & _ & [Hq Hcache] & ->)].
    + by left.
    + destruct c as [[]| |]; simpl; eauto.
  - unfold getServerStatus, the_server. run_op. by rewrite Hl.
Qed.

(** X14. An entry that is absent, or 5000 ms old or older, is not used:
    the query asks the host, and when the listing comes back it answers
    from that listing, whatever the old entry said, and replaces the entry
    by the new sessions stamped with the time at which the query started,
    not the later time at which the listing arrived. *)
Theorem stale_entry_is_replaced
    (w : world) (serverName : string) (serverConfig : serverConfig)
    (elapsed : Z) (events : list event) (network' : list reply)
    (output : string) (code : option Z) (signal : option string) :
  lookup_server serverName (config w) = Some serverConfig →
  (screenSessionCache w !! host serverConfig = None
   ∨ ∃ entry, screenSessionCache w !! host serverConfig = Some entry
              ∧ 5000 ≤ now w - timestamp entry) →
  network w = ExecReply elapsed events :: network' →
  first_terminal (init 500) events = Some (CommandOutput output code signal) →
  let w' := (getServerStatus serverName w).2 in
  (getServerStatus serverName w).1
  = Returned (ServerStatus (includes (parse_sessions output)
                                     (screen_name serverConfig)))
  ∧ screenSessionCache w'
    = <[host serverConfig := mkEntry (now w) (parse_sessions output)]>
        (screenSessionCache w)
  ∧ now w' = now w + elapsed
  ∧ requests w'
    = requests w ++ [ExecRequest (host serverConfig) (username serverConfig)
                                 "screen -ls" 500].
Proof.
  intros Hl Hstale Hn Hft.
  assert (Hf : fresh (now w) (screenSessionCache w !! host serverConfig)
               = None).
  { destruct Hstale as [->|(entry & -> & Hold)]; [done|]. simpl.
    by apply Z.ltb_ge in Hold as ->. }
  unfold getServerStatus, the_server, executeCommand, connect, promise.
  run_op. rewrite Hl. simpl. rewrite Hf, Hl. simpl. rewrite Hn. simpl.
  rewrite run_first_terminal by done. rewrite Hft. simpl. done.
Qed.

Lemma stale_entry_is_replaced_witness :
  (getServerStatus "worker" MoreSamples.outdated).1
  = Returned (ServerStatus true)
  ∧ screenSessionCache (getServerStatus "worker" MoreSamples.outdated).2
      !! "lab-host"
    = Some (mkEntry 1000 ["worker_a"])
  ∧ now (getServerStatus "worker" MoreSamples.outdated).2 = 1030.
Proof.
  assert (Hstale :
    screenSessionCache MoreSamples.outdated !! host Samples.worker = None
    ∨ ∃ entry,
        screenSessionCache MoreSamples.outdated !! host Samples.worker
        = Some entry
        ∧ 5000 ≤ now MoreSamples.outdated - timestamp entry).
  { right. exists (mkEntry (-4000) ["old_session"]). split; [reflexivity|].
    vm_compute. discriminate. }
  destruct (stale_entry_is_replaced MoreSamples.outdated "worker"
              Samples.worker 30 Samples.answering []
              Samples.listing (Some 0) None eq_refl Hstale eq_refl eq_refl)
    as (H1 & H2 & H3 & _).
  split; [exact H1|]. split; [|exact H3].
  rewrite H2. reflexivity.
Defined.

(** X15. [getBatchServerStatus] does not read the cache: for a host with a
    server in a registry that gives every server a name, it opens a
    connection for [screen -ls] with the 500 ms timeout whatever the cache
    holds, even an entry that is still fresh. *)
Theorem batch_query_always_connects
    (w : world) (serverName : string) (serverConfig : serverConfig) :
  names_are_given (config w) →
  lookup_server serverName (config w) = Some serverConfig →
  ∃ user,
    requests (getBatchServerStatus (host serverConfig) w).2
    = requests w ++ [ExecRequest (host serverConfig) user "screen -ls" 500].
Proof.
  intros Hnames Hl.
  destruct (find_server_name (host serverConfig) (config w)) as [found|]
    eqn:Hf.
  - destruct found as [|a name].
    + unfold find_server_name in Hf. apply List.find_some in Hf as [Hin _].
      apply in_map_iff in Hin as ([n sc] & Hn & Hin). simpl in Hn. subst n.
      unfold names_are_given in Hnames. rewrite Forall_forall in Hnames.
      apply list_elem_of_In in Hin. by destruct (Hnames _ Hin).
    + destruct (getBatchServerStatus_known _ _ _ _ Hf)
        as (sc & c & w' & _ & _ & _ & _ & Hreq & ->).
      exists (username sc). by destruct c as [[]| |].
  - unfold find_server_name in Hf.
    pose proof (List.find_none _ _ Hf serverName) as Hnone. simpl in Hnone.
    rewrite Hl, String.eqb_refl in Hnone.
    assert (Hin : In serverName (map fst (config w))); [|by apply Hnone in Hin].
    apply lookup_server_elem in Hl. apply list_elem_of_In in Hl.
    apply in_map_iff. by exists (serverName, serverConfig).
Qed.

Lemma batch_query_always_connects_witness :
  ∃ user,
    requests (getBatchServerStatus "lab-host" MoreSamples.cached).2
    = [ExecRequest "lab-host" user "screen -ls" 500].
Proof.
  assert (Hnames : names_are_given (config MoreSamples.cached))
    by (repeat constructor; discriminate).
  exact (batch_query_always_connects MoreSamples.cached "worker"
           Samples.worker Hnames eq_refl).
Defined.

(** X16. When the registry starts with a server that bears the empty name,
    [getBatchServerStatus] takes that server's host for unconfigured: it
    returns the failure [No server configured for host <host>] and opens no
    connection, whatever other servers are registered on the host. *)
Theorem batch_query_misses_nameless_server
    (w : world) (serverConfig : serverConfig) (others : registry) :
  config w = (EmptyString, serverConfig) :: others →
  getBatchServerStatus (host serverConfig) w
  = (Returned (Failure ("No server configured for host "
                          +:+ host serverConfig)), w).
Proof.
  intros Hcfg.
  assert (Hf : find_server_name (host serverConfig) (config w)
               = Some EmptyString).
  { unfold find_server_name. rewrite Hcfg. simpl.
    by rewrite String.eqb_refl. }
  unfold getBatchServerStatus. run_op. by rewrite Hf.
Qed.

Lemma batch_query_misses_nameless_server_witness :
  getBatchServerStatus "lab-host" MoreSamples.nameless
  = (Returned (Failure "No server configured for host lab-host"),
     MoreSamples.nameless).
Proof.
  exact (batch_query_misses_nameless_server MoreSamples.nameless
           Samples.worker [("worker"%string, Samples.worker)] eq_refl).
Defined.

End MoreOrchestratorFacts.

(** ** The registry *)

Section RegistryFacts.

Import Orchestrator Registry.

Lemma lookup_addServer_eq serverName serverConfig config :
  lookup_server serverName (addServer serverName serverConfig config)
  = Some serverConfig.
Proof.
  induction config as [|[name old] config IH]; simpl.
  - by rewrite String.eqb_refl.
  - destruct (String.eqb name serverName) eqn:E; simpl; by rewrite E.
Qed.

Lemma lookup_addServer_ne serverName other serverConfig config :
  other ≠ serverName →
  lookup_server other (addServer serverName serverConfig config)
  = lookup_server other config.
Proof.
  intros Hne. induction config as [|[name old] config IH]; simpl.
  - apply String.eqb_neq in Hne. rewrite String.eqb_sym in Hne.
    by rewrite Hne.
  - destruct (String.eqb name serverName) eqn:E; simpl.
    + apply String.eqb_eq in E as ->.
      assert (String.eqb serverName other = false) as ->; [|done].
      apply String.eqb_neq. congruence.
    + by rewrite IH.
Qed.

Lemma lookup_removeServer_eq serverName config :
  lookup_server serverName (removeServer serverName config) = None.
Proof.
  induction config as [|[name old] config IH]; [done|]. simpl.
  destruct (String.eqb name serverName) eqn:E; simpl; [done|].
  by rewrite E.
Qed.

Lemma lookup_removeServer_ne serverName other config :
  other ≠ serverName →
  lookup_server other (removeServer serverName config)
  = lookup_server other config.
Proof.
  intros Hne.
  induction config as [|[name old] config IH]; [done|]. simpl.
  destruct (String.eqb name serverName) eqn:E; simpl.
  - apply String.eqb_eq in E as ->.
    assert (String.eqb serverName other = false) as ->; [|done].
    apply String.eqb_neq. congruence.
  - by rewrite IH.
Qed.

(** X17. For a name that is not a property name every object inherits
    from [Object.prototype], the registry edited by [addServer] and
    [removeServer] answers like a map: the name added is found with the
    configuration given, replacing an older one; the name removed is no
    longer found; and the other names are found as before. *)
Theorem registry_edits_are_map_updates
    (config : registry) (serverName other : string)
    (serverConfig : serverConfig) :
  inherited serverName = false →
  lookup_server serverName (addServer serverName serverConfig config)
  = Some serverConfig
  ∧ lookup_server serverName (removeServer serverName config) = None
  ∧ (other ≠ serverName →
     lookup_server other (addServer serverName serverConfig config)
     = lookup_server other config
     ∧ lookup_server other (removeServer serverName config)
       = lookup_server other config).
Proof.
  intros _.
  split; [apply lookup_addServer_eq|].
  split; [apply lookup_removeServer_eq|].
  intros Hne. split;
    [by apply lookup_addServer_ne|by apply lookup_removeServer_ne].
Qed.

Lemma removeServer_absent serverName config :
  lookup_server serverName config = None →
  removeServer serverName config = config.
Proof.
  induction config as [|[name old] config IH]; [done|]. simpl.
  destruct (String.eqb name serverName) eqn:E; [done|].
  intros Hl. by rewrite IH.
Qed.

Lemma addServer_absent serverName serverConfig config :
  lookup_server serverName config = None →
  addServer serverName serverConfig config
  = config ++ [(serverName, serverConfig)].
Proof.
  induction config as [|[name old] config IH]; [done|]. simpl.
  destruct (String.eqb name serverName) eqn:E; [done|].
  intros Hl. by rewrite IH.
Qed.

(** X18. Adding a server under a name the registry does not have, and
    that is not a property name every object inherits from
    [Object.prototype], and removing it again, gives the registry back,
    entry for entry; and once removed, the server is answered by
    [executeCommand] with the transport failure, without any connection. *)
Theorem add_then_remove_restores_registry
    (w : world) (serverName command : string) (serverConfig : serverConfig)
    (timeout : Z) :
  lookup_server serverName (config w) = None →
  inherited serverName = false →
  removeServer serverName (addServer serverName serverConfig (config w))
  = config w
  ∧ executeCommand serverName command timeout
      (mkWorld (removeServer serverName
                  (addServer serverName serverConfig (config w)))
               (screenSessionCache w) (now w) (network w) (requests w))
    = (Returned SshDown, w).
Proof.
  intros Hl _.
  assert (Hback : removeServer serverName
                    (addServer serverName serverConfig (config w))
                  = config w).
  { rewrite addServer_absent by done.
    revert Hl. generalize (config w). intros cfg.
    induction cfg as [|[name old] cfg IH]; simpl.
    - by rewrite String.eqb_refl.
    - destruct (String.eqb name serverName) eqn:E; [done|].
      intros Hl. by rewrite IH. }
  split; [done|]. rewrite Hback.
  destruct w as [cfg cache t nw rq]. simpl in *.
  by apply executeCommand_unknown.
Qed.

Lemma add_then_remove_restores_registry_witness :
  removeServer "extra" (addServer "extra" Samples.worker Samples.fleet)
  = Samples.fleet.
Proof.
  exact (proj1 (add_then_remove_restores_registry Samples.online "extra"
                  "uptime" Samples.worker 0 eq_refl eq_refl)).
Defined.

(** X19. [toggleServerActive] changes nothing but the [active] flag of the
    one server named, leaves a registry without that name as it is, and
    undoes itself when applied twice. *)
Theorem toggle_flips_one_flag (config : registry) (serverName other : string) :
  lookup_server serverName (toggleServerActive serverName config)
  = (λ sc, set_active (negb (active sc)) sc)
      <$> lookup_server serverName config
  ∧ (other ≠ serverName →
     lookup_server other (toggleServerActive serverName config)
     = lookup_server other config)
  ∧ map fst (toggleServerActive serverName config) = map fst config
  ∧ toggleServerActive serverName (toggleServerActive serverName config)
    = config.
Proof.
  induction config as [|[name sc] config (IH1 & IH2 & IH3 & IH4)]; [done|].
  simpl. destruct (String.eqb name serverName) eqn:E; simpl; rewrite E.
  - apply String.eqb_eq in E as ->. split; [done|]. split; [|split; [done|]].
    + intros Hne.
      assert (String.eqb serverName other = false) as ->; [|done].
      apply String.eqb_neq. congruence.
    + destruct sc. unfold set_active. simpl. by rewrite negb_involutive.
  - split; [done|]. split; [|split].
    + intros Hne. destruct (String.eqb name other); [done|]. by apply IH2.
    + by rewrite IH3.
    + by rewrite IH4.
Qed.

Lemma toggle_flips_one_flag_witness :
  lookup_server "worker" (toggleServerActive "other" Samples.fleet)
  = lookup_server "worker" Samples.fleet.
Proof.
  pose proof (toggle_flips_one_flag Samples.fleet "other" "worker")
    as (_ & H & _).
  apply H. discriminate.
Defined.

Lemma registry_edits_are_map_updates_witness :
  lookup_server "worker" (addServer "other" Samples.worker Samples.fleet)
  = lookup_server "worker" Samples.fleet
  ∧ lookup_server "worker" (removeServer "other" Samples.fleet)
    = lookup_server "worker" Samples.fleet.
Proof.
  pose proof (registry_edits_are_map_updates Samples.fleet "other" "worker"
                Samples.worker eq_refl) as (_ & _ & H).
  apply H. discriminate.
Defined.

Lemma listing_of_app names more :
  names ≠ [] → listing_of (names ++ more) = Some (names ++ more).
Proof. by destruct names. Qed.

(** The grouping loop, from a host map whose lists are not empty. *)
Lemma group_by_host_some entries hostMap result :
  group_by_host entries hostMap = Some result →
  (∀ h names, hostMap !! h = Some names → names ≠ []) →
  ∀ h, result !! h
       = listing_of (default [] (hostMap !! h) ++ names_on h entries).
Proof.
  revert hostMap. induction entries as [|[n sc] entries IH];
    intros hostMap Hg Hne h; simpl in Hg.
  - injection Hg as <-. simpl. rewrite app_nil_r.
    destruct (hostMap !! h) as [names|] eqn:Hh; simpl; [|done].
    specialize (Hne _ _ Hh). by destruct names.
  - simpl. destruct (active sc) eqn:Ha; simpl in *; [|by apply IH].
    destruct (hostMap !! host sc) as [names|] eqn:Hh.
    + rewrite (IH _ Hg).
      * destruct (String.eqb (host sc) h) eqn:E.
        -- apply String.eqb_eq in E as <-.
           rewrite lookup_insert_eq, Hh. simpl. by rewrite <- app_assoc.
        -- apply String.eqb_neq in E. by rewrite lookup_insert_ne.
      * intros h' names' Hl. destruct (decide (host sc = h')) as [<-|Hd].
        -- rewrite lookup_insert_eq in Hl. injection Hl as <-.
           by destruct names.
        -- rewrite lookup_insert_ne in Hl by done. by eapply Hne.
    + destruct (inherited (host sc)); [done|].
      rewrite (IH _ Hg).
      * destruct (String.eqb (host sc) h) eqn:E.
        -- apply String.eqb_eq in E as <-.
           by rewrite lookup_insert_eq, Hh.
        -- apply String.eqb_neq in E. by rewrite lookup_insert_ne.
      * intros h' names' Hl. destruct (decide (host sc = h')) as [<-|Hd].
        -- rewrite lookup_insert_eq in Hl. by injection Hl as <-.
        -- rewrite lookup_insert_ne in Hl by done. by eapply Hne.
Qed.

(** X20. When [getServersByHost] returns, the map it returns holds, for
    every host, the names of the active servers registered on that host, in
    registry order, and no entry at all for a host without active server:
    inactive servers are left out. *)
Theorem getServersByHost_lists_active_servers
    (config : registry) (hostMap : gmap string (list string)) (h : string) :
  getServersByHost config = Returned hostMap →
  hostMap !! h = listing_of (names_on h config).
Proof.
  unfold getServersByHost.
  destruct (group_by_host config ∅) as [result|] eqn:Hg; [|done].
  intros [= <-]. rewrite (group_by_host_some _ _ _ Hg); [done|].
  intros h' names. by rewrite lookup_empty.
Qed.

Lemma getServersByHost_lists_active_servers_witness :
  ∃ hostMap,
    getServersByHost MoreSamples.bare_fleet = Returned hostMap
    ∧ hostMap !! "lab-host" = Some ["worker"; "bare"]
    ∧ hostMap !! "elsewhere" = None.
Proof.
  eexists. split; [reflexivity|]. split.
  - exact (getServersByHost_lists_active_servers MoreSamples.bare_fleet _
             "lab-host" eq_refl).
  - exact (getServersByHost_lists_active_servers MoreSamples.bare_fleet _
             "elsewhere" eq_refl).
Defined.

(** The grouping loop fails exactly on an active server whose host is an
    inherited property name. *)
Lemma group_by_host_none entries hostMap :
  (∀ h, is_Some (hostMap !! h) → inherited h = false) →
  group_by_host entries hostMap = None
  ↔ ∃ n sc, (n, sc) ∈ entries ∧ active sc = true
            ∧ inherited (host sc) = true.
Proof.
  revert hostMap. induction entries as [|[n sc] entries IH];
    intros hostMap Hinv; simpl.
  - split; [done|]. intros (? & ? & Hin & _). by apply elem_of_nil in Hin.
  - destruct (active sc) eqn:Ha; simpl.
    + destruct (hostMap !! host sc) as [names|] eqn:Hh.
      * assert (Hni : inherited (host sc) = false) by (apply Hinv; eauto).
        rewrite IH.
        -- split.
           ++ intros (n' & sc' & Hin & ?). exists n', sc'.
              split; [by right|done].
           ++ intros (n' & sc' & Hin & Ha' & Hi').
              apply elem_of_cons in Hin as [[= -> ->]|Hin]; [congruence|].
              eauto.
        -- intros h' Hs. destruct (decide (host sc = h')) as [<-|Hd]; [done|].
           rewrite lookup_insert_ne in Hs by done. by apply Hinv.
      * destruct (inherited (host sc)) eqn:Hi.
        -- split; [|done]. intros _. exists n, sc. split; [left|done].
        -- rewrite IH.
           ++ split.
              ** intros (n' & sc' & Hin & ?). exists n', sc'.
                 split; [by right|done].
              ** intros (n' & sc' & Hin & Ha' & Hi').
                 apply elem_of_cons in Hin as [[= -> ->]|Hin]; [congruence|].
                 eauto.
           ++ intros h' Hs. destruct (decide (host sc = h')) as [<-|Hd];
                [done|].
              rewrite lookup_insert_ne in Hs by done. by apply Hinv.
    + rewrite IH by done. split.
      * intros (n' & sc' & Hin & ?). exists n', sc'. split; [by right|done].
      * intros (n' & sc' & Hin & Ha' & Hi').
        apply elem_of_cons in Hin as [[= -> ->]|Hin]; [congruence|]. eauto.
Qed.

(** X21. [getServersByHost] throws a [TypeError] exactly when some active
    server has for host a property name that every object inherits, such as
    [constructor] or [toString]; otherwise it returns. *)
Theorem getServersByHost_throws_on_inherited_host (config : registry) :
  getServersByHost config = Thrown TypeError
  ↔ ∃ serverName serverConfig,
      (serverName, serverConfig) ∈ config
      ∧ active serverConfig = true
      ∧ inherited (host serverConfig) = true.
Proof.
  unfold getServersByHost.
  rewrite <- (group_by_host_none config ∅).
  - by destruct (group_by_host config ∅).
  - intros h [x Hx]. by rewrite lookup_empty in Hx.
Qed.

Lemma getServersByHost_throws_on_inherited_host_witness :
  getServersByHost
    [("odd"%string,
      mkServer "constructor" "afl" "odd" "bash" None None None true 5000)]
  = Thrown TypeError.
Proof.
  apply getServersByHost_throws_on_inherited_host.
  eexists _, _. split; [apply list_elem_of_here|]. split; reflexivity.
Defined.

Lemma lookup_server_unique serverName serverConfig config :
  NoDup (map fst config) → (serverName, serverConfig) ∈ config →
  lookup_server serverName config = Some serverConfig.
Proof.
  induction config as [|[name sc] config IH]; simpl; intros Hnd Hin.
  - by apply elem_of_nil in Hin.
  - apply NoDup_cons in Hnd as [Hnot Hnd].
    apply elem_of_cons in Hin as [[= -> ->]|Hin].
    + by rewrite String.eqb_refl.
    + destruct (String.eqb name serverName) eqn:E; [|by apply IH].
      apply String.eqb_eq in E as ->. destruct Hnot.
      apply list_elem_of_fmap. by exists (serverName, serverConfig).
Qed.

Lemma names_on_elem h serverName config :
  serverName ∈ names_on h config →
  ∃ serverConfig, (serverName, serverConfig) ∈ config
                  ∧ active serverConfig = true ∧ host serverConfig = h.
Proof.
  induction config as [|[name sc] config IH]; simpl; intros Hin.
  - by apply elem_of_nil in Hin.
  - destruct (active sc && String.eqb (host sc) h) eqn:E.
    + apply andb_true_iff in E as [Ha Hh]. apply String.eqb_eq in Hh.
      apply elem_of_cons in Hin as [->|Hin].
      * exists sc. split; [left|done].
      * destruct (IH Hin) as (sc' & ? & ?). exists sc'. split; [by right|done].
    + destruct (IH Hin) as (sc' & ? & ?). exists sc'. split; [by right|done].
Qed.

Lemma toggle_lookup serverName config :
  lookup_server serverName (toggleServerActive serverName config)
  = (λ sc, set_active (negb (active sc)) sc)
      <$> lookup_server serverName config.
Proof.
  induction config as [|[name sc] config IH]; [done|]. simpl.
  destruct (String.eqb name serverName) eqn:E; simpl; by rewrite E.
Qed.

Lemma toggle_names serverName config :
  map fst (toggleServerActive serverName config) = map fst config.
Proof.
  induction config as [|[name sc] config IH]; [done|]. simpl.
  destruct (String.eqb name serverName); simpl; by rewrite ?IH.
Qed.

(** X22. In a registry that gives each server a name of its own, a server
    that [toggleServerActive] has switched off is no longer listed by
    [getServersByHost], under any host. *)
Theorem toggled_off_server_is_not_listed
    (config : registry) (serverName : string) (serverConfig : serverConfig)
    (hostMap : gmap string (list string)) (h : string)
    (names : list string) :
  NoDup (map fst config) →
  lookup_server serverName config = Some serverConfig →
  active serverConfig = true →
  getServersByHost (toggleServerActive serverName config)
  = Returned hostMap →
  hostMap !! h = Some names →
  serverName ∉ names.
Proof.
  intros Hnd Hl Ha Hg Hh Hin.
  unfold getServersByHost in Hg.
  destruct (group_by_host (toggleServerActive serverName config) ∅)
    as [result|] eqn:Hgr; [|done].
  injection Hg as <-.
  rewrite (group_by_host_some _ _ _ Hgr) in Hh
    by (intros h' names'; by rewrite lookup_empty).
  rewrite lookup_empty in Hh. simpl in Hh.
  assert (Hnames : names = names_on h (toggleServerActive serverName config)).
  { destruct (names_on h (toggleServerActive serverName config));
      simpl in Hh; congruence. }
  subst names. apply names_on_elem in Hin as (sc' & Hin & Ha' & _).
  apply lookup_server_unique in Hin; [|by rewrite toggle_names].
  rewrite toggle_lookup, Hl in Hin. simpl in Hin. injection Hin as <-.
  simpl in Ha'. by rewrite Ha in Ha'.
Qed.

Lemma toggled_off_server_is_not_listed_witness :
  "bare"%string ∉ ["worker"%string].
Proof.
  assert (Hnd : NoDup (map fst MoreSamples.bare_fleet)).
  { apply NoDup_cons. split.
    - intros H. apply list_elem_of_singleton in H. discriminate.
    - apply NoDup_singleton. }
  exact (toggled_off_server_is_not_listed MoreSamples.bare_fleet "bare"
           MoreSamples.bare
           {[ "lab-host"%string := ["worker"%string] ]} "lab-host"
           ["worker"%string]
           Hnd eq_refl eq_refl eq_refl eq_refl).
Defined.

(** X23. The defaults of [loadConfig] are settled after one pass: a second
    pass changes nothing.  After them the port is set and is not 0, the
    shell is set and not empty, the [active] flag is the one given, [false]
    included, and [true] when none was given; and the user name is set and
    not empty as long as the name of the current user is not empty. *)
Theorem loadConfig_defaults_settle (osUser : string) (server : loadedServer) :
  let loaded := loadConfig_defaults osUser server in
  loadConfig_defaults osUser loaded = loaded
  ∧ loaded_active loaded = Some (default true (loaded_active server))
  ∧ (∃ port, loaded_httpPort loaded = Some port ∧ port ≠ 0)
  ∧ truthy (loaded_shell loaded) = true
  ∧ (osUser ≠ EmptyString → truthy (loaded_username loaded) = true).
Proof.
  destruct server as [port sh act user]. unfold loadConfig_defaults. simpl.
  split; [|split; [|split; [|split]]].
  - f_equal.
    + by destruct port as [[| |]|].
    + destruct (truthy sh) eqn:E; simpl; by rewrite ?E.
    + by destruct act.
    + destruct (truthy user) eqn:E; simpl; [by rewrite E|].
      by destruct osUser.
  - by destruct act.
  - destruct port as [[|p|p]|]; eauto.
  - by destruct (truthy sh) eqn:E.
  - intros Hne. destruct (truthy user) eqn:E; [done|]. by destruct osUser.
Qed.

Lemma loadConfig_defaults_settle_witness :
  truthy (loaded_username
            (loadConfig_defaults "afl"
               (mkLoaded (Some 0) None (Some false) (Some EmptyString))))
  = true.
Proof.
  pose proof (loadConfig_defaults_settle "afl"
                (mkLoaded (Some 0) None (Some false) (Some EmptyString)))
    as (_ & _ & _ & _ & H).
  apply H. discriminate.
Defined.

End RegistryFacts.

(** ** Further properties of the remote configuration document *)

Section MoreDocumentFacts.

Import Orchestrator Document RemoteConfig Frames.

Variable JSON_parse : string → option json.
Variable JSON_stringify : json → string.
Variable local_date : Z → date.

Ltac run_op :=
  unfold mbind, op_bind, mret, op_ret, gets, modify, throw, never; simpl.

(** X24. When the read of the remote path fails, or brings back an empty
    text or a text that does not parse, the save goes on and writes a
    document holding the new snapshot alone: whatever the remote file held
    is not carried over. *)
Theorem save_after_failed_read_writes_snapshot_alone
    (w : world) (h : string) (cfgObj : json) (server : serverConfig)
    (elapsed : Z) (outcome : sftp string) (network' : list reply) :
  getServerForHost h (config w) = Some server →
  network w = ReadReply elapsed outcome :: network' →
  ((∃ message, outcome = SftpError message)
   ∨ outcome = SftpDone EmptyString
   ∨ ∃ data, outcome = SftpDone data ∧ JSON_parse data = None) →
  requests (saveRemoteAflConfig JSON_parse JSON_stringify local_date
              h cfgObj w).2
  = requests w
      ++ [ReadRequest (host server) (username server) (remote_path server);
          WriteRequest (host server) (username server) (remote_path server)
            (JSON_stringify
               (JObject [(timestamp_key (local_date (now w + elapsed)),
                          cfgObj)]))].
Proof.
  intros Hs Hn Hout.
  assert (∃ read, read_resolution outcome = Some read
                  ∧ existing_document JSON_parse read = JObject [])
    as (read & Hr & He).
  { destruct Hout as [(m & ->)|[->|(data & -> & Hp)]].
    - by exists (Failure m).
    - by exists (FileData EmptyString).
    - exists (FileData data). split; [done|].
      by apply existing_document_fallback. }
  by rewrite (save_requests JSON_parse JSON_stringify local_date w h cfgObj
                server elapsed outcome network' read [] Hs Hn Hr He).
Qed.

Lemma get_set_field_eq key value fields :
  get_field key (set_field key value fields) = Some value.
Proof.
  induction fields as [|[k v] fields IH]; simpl.
  - by rewrite String.eqb_refl.
  - destruct (String.eqb k key) eqn:E; simpl; by rewrite E.
Qed.

Lemma get_set_field_ne key other value fields :
  other ≠ key →
  get_field other (set_field key value fields) = get_field other fields.
Proof.
  intros Hne. induction fields as [|[k v] fields IH]; simpl.
  - apply String.eqb_neq in Hne. rewrite String.eqb_sym in Hne.
    by rewrite Hne.
  - destruct (String.eqb k key) eqn:E; simpl.
    + apply String.eqb_eq in E as ->.
      assert (String.eqb key other = false) as ->; [|done].
      apply String.eqb_neq. congruence.
    + by rewrite IH.
Qed.

Lemma set_field_keys_present key value fields :
  key ∈ keys fields → keys (set_field key value fields) = keys fields.
Proof.
  induction fields as [|[k v] fields IH]; simpl; intros Hin.
  - by apply elem_of_nil in Hin.
  - destruct (String.eqb k key) eqn:E; simpl; [done|].
    apply elem_of_cons in Hin as [->|Hin].
    + by rewrite String.eqb_refl in E.
    + f_equal. by apply IH.
Qed.

(** X25. When the document read already holds the timestamp key generated
    for the save, the save overwrites it: the document written has the same
    keys in the same order, the key now maps to the new snapshot, and every
    other key maps to what it mapped to. *)
Theorem save_overwrites_equal_timestamp
    (w : world) (h other : string) (cfgObj : json) (server : serverConfig)
    (elapsed : Z) (outcome : sftp string) (network' : list reply)
    (read : result) (fields : list (string * json)) :
  getServerForHost h (config w) = Some server →
  network w = ReadReply elapsed outcome :: network' →
  read_resolution outcome = Some read →
  existing_document JSON_parse read = JObject fields →
  timestamp_key (local_date (now w + elapsed)) ∈ keys fields →
  ∃ written,
    requests (saveRemoteAflConfig JSON_parse JSON_stringify local_date
                h cfgObj w).2
    = requests w
        ++ [ReadRequest (host server) (username server) (remote_path server);
            WriteRequest (host server) (username server) (remote_path server)
              (JSON_stringify (JObject written))]
    ∧ keys written = keys fields
    ∧ get_field (timestamp_key (local_date (now w + elapsed))) written
      = Some cfgObj
    ∧ (other ≠ timestamp_key (local_date (now w + elapsed)) →
       get_field other written = get_field other fields).
Proof.
  intros Hs Hn Hr He Hin.
  exists (set_field (timestamp_key (local_date (now w + elapsed))) cfgObj
                    fields).
  split.
  { exact (save_requests JSON_parse JSON_stringify local_date w h cfgObj server
             elapsed outcome network' read fields Hs Hn Hr He). }
  split; [by apply set_field_keys_present|].
  split; [apply get_set_field_eq|apply get_set_field_ne].
Qed.

(** X26. [getRemoteAflConfig] never throws.  For a host without server it
    returns the failure [No server for host <host>] and opens no
    connection; for a host with a server it hands on the failure of the
    read as it is, and returns the parsed text otherwise, the empty
    document standing for a text that does not parse. *)
Theorem getRemoteAflConfig_outcomes
    (w : world) (h : string) (server : serverConfig) (elapsed : Z)
    (outcome : sftp string) (network' : list reply) :
  (getServerForHost h (config w) = None →
   getRemoteAflConfig JSON_parse h w
   = (Returned (Unread (Failure ("No server for host " +:+ h))), w))
  ∧ (getServerForHost h (config w) = Some server →
     network w = ReadReply elapsed outcome :: network' →
     (getRemoteAflConfig JSON_parse h w).1
     = match outcome with
       | SftpError message => Returned (Unread (Failure message))
       | SftpDone data =>
           Returned (ConfigData (default (JObject []) (JSON_parse data)))
       | SftpSilent => Pending
       end
     ∧ requests (getRemoteAflConfig JSON_parse h w).2
       = requests w ++ [ReadRequest (host server) (username server)
                                    (remote_path server)])
  ∧ ∀ e, (getRemoteAflConfig JSON_parse h w).1 ≠ Thrown e.
Proof.
  split; [|split].
  - intros Hs. unfold getRemoteAflConfig. run_op. by rewrite Hs.
  - intros Hs Hn. unfold getRemoteAflConfig, readRemoteFile, connect. run_op.
    repeat (first [rewrite Hs | rewrite Hn]; simpl).
    destruct outcome as [m|data|]; simpl; [done| |done].
    by destruct (JSON_parse data).
  - intros e. unfold getRemoteAflConfig, readRemoteFile, connect. run_op.
    destruct (getServerForHost h (config w)) as [sv|] eqn:Hs; simpl; [|done].
    rewrite Hs. simpl.
    destruct (network w) as [|[d evs|d [m|data|]|d o] nw]; simpl; try done.
    by destruct (JSON_parse data).
Qed.

(** X27. A save followed by a read of the configuration gives the snapshot
    back.  Let the save read an object and its write go through; let the
    next read of the path bring back the very text the save handed to its
    write; and let [JSON.parse] invert [JSON.stringify] on the document
    made of the fields read with the generated timestamp key set to the
    snapshot.  Then [getRemoteAflConfig] returns that document, in which
    the key maps to the snapshot. *)
Theorem save_then_get_returns_snapshot
    (w : world) (h content : string) (cfgObj : json) (server : serverConfig)
    (d1 d2 d3 : Z) (outcome : sftp string) (network' : list reply)
    (read : result) (fields : list (string * json)) :
  let ts := timestamp_key (local_date (now w + d1)) in
  let written := JObject (set_field ts cfgObj fields) in
  let saved :=
    saveRemoteAflConfig JSON_parse JSON_stringify local_date h cfgObj w in
  getServerForHost h (config w) = Some server →
  network w
  = ReadReply d1 outcome :: WriteReply d2 (SftpDone tt)
      :: ReadReply d3 (SftpDone content) :: network' →
  read_resolution outcome = Some read →
  existing_document JSON_parse read = JObject fields →
  last (requests saved.2)
  = Some (WriteRequest (host server) (username server) (remote_path server)
                       content) →
  JSON_parse (JSON_stringify written) = Some written →
  saved.1 = Returned FileWritten
  ∧ (getRemoteAflConfig JSON_parse h saved.2).1
    = Returned (ConfigData written)
  ∧ get_field ts (set_field ts cfgObj fields) = Some cfgObj.
Proof.
  intros ts written saved Hs Hn Hr He Hlast Hparse.
  assert (Hcontent : content = JSON_stringify written).
  { unfold saved in Hlast.
    rewrite (save_requests JSON_parse JSON_stringify local_date w h cfgObj
               server d1 outcome _ read fields Hs Hn Hr He) in Hlast.
    rewrite last_app_cons, last_cons_cons, last_singleton in Hlast.
    by injection Hlast as <-. }
  subst content.
  split; [|split; [|apply get_set_field_eq]].
  - unfold saved, saveRemoteAflConfig, readRemoteFile, writeRemoteFile,
      connect.
    run_op.
    by repeat (first [rewrite Hs | rewrite Hn | rewrite Hr | rewrite He];
               simpl).
  - unfold saved, saveRemoteAflConfig, readRemoteFile, writeRemoteFile,
      getRemoteAflConfig, connect.
    run_op.
    repeat (first [rewrite Hs | rewrite Hn | rewrite Hr | rewrite He];
            simpl).
    fold ts. fold written. unfold readRemoteFile, connect. run_op.
    rewrite Hs. simpl. by rewrite Hparse.
Qed.

(** X28. A save opens two connections at most, the read first, and leaves
    the registry and the session cache alone.  On a host without server it
    fails without connecting; and when the read never resolves, the save
    stays pending with the read as its only connection: nothing is
    written. *)
Theorem save_reads_before_it_writes
    (w : world) (h : string) (cfgObj : json) :
  quiet 2 w
    (saveRemoteAflConfig JSON_parse JSON_stringify local_date h cfgObj w).2
  ∧ (getServerForHost h (config w) = None →
     saveRemoteAflConfig JSON_parse JSON_stringify local_date h cfgObj w
     = (Returned (Failure ("No server for host " +:+ h)), w))
  ∧ ∀ server,
      getServerForHost h (config w) = Some server →
      (network w = []
       ∨ ∃ elapsed network',
           network w = ReadReply elapsed SftpSilent :: network') →
      (saveRemoteAflConfig JSON_parse JSON_stringify local_date h cfgObj w).1
      = Pending
      ∧ requests
          (saveRemoteAflConfig JSON_parse JSON_stringify local_date
             h cfgObj w).2
        = requests w ++ [ReadRequest (host server) (username server)
                                     (remote_path server)].
Proof.
  split; [|split].
  - unfold saveRemoteAflConfig, readRemoteFile, writeRemoteFile, connect,
      assign.
    run_op.
    destruct (getServerForHost h (config w)) as [sv|] eqn:Hs; simpl;
      [|apply quiet_refl].
    rewrite Hs. simpl.
    assert (Hone : ∀ rq t nw,
      quiet 2 w (mkWorld (config w) (screenSessionCache w) t nw
                         (requests w ++ [rq]))).
    { intros rq t nw. split; [|done]. split; [done|].
      exists [rq]. split; [done|]. simpl. lia. }
    assert (Htwo : ∀ rq1 rq2 t nw,
      quiet 2 w (mkWorld (config w) (screenSessionCache w) t nw
                         ((requests w ++ [rq1]) ++ [rq2]))).
    { intros rq1 rq2 t nw. split; [|done]. split; [done|].
      exists [rq1; rq2]. rewrite <- app_assoc. split; [done|]. simpl. lia. }
    destruct (network w) as [|[d evs|d o|d o] nw]; simpl; try apply Hone.
    destruct (read_resolution o) as [rd|]; simpl; [|apply Hone].
    destruct (existing_document JSON_parse rd); simpl; try apply Hone;
      rewrite Hs; simpl;
      (destruct nw as [|[d' evs'|d' o'|d' o'] nw']; simpl; try apply Htwo;
       destruct (write_resolution o'); simpl; apply Htwo).
  - intros Hs. unfold saveRemoteAflConfig. run_op. by rewrite Hs.
  - intros server Hs Hnet.
    unfold saveRemoteAflConfig, readRemoteFile, connect. run_op.
    rewrite Hs. simpl. rewrite Hs. simpl.
    by destruct Hnet as [->|(d & nw & ->)].
Qed.

End MoreDocumentFacts.

Section MoreDocumentExamples.

Import Orchestrator Document RemoteConfig Samples MoreSamples.

Lemma save_after_failed_read_writes_snapshot_alone_witness :
  requests (saveRemoteAflConfig parse stringify calendar "lab-host" snapshot
              unreadable).2
  = [ReadRequest "lab-host" "afl" "/home/afl/.afl/config.json";
     WriteRequest "lab-host" "afl" "/home/afl/.afl/config.json"
       (stringify (JObject [("24/03/02 04:05:06.047000"%string, snapshot)]))].
Proof.
  exact (save_after_failed_read_writes_snapshot_alone parse stringify calendar
           unreadable "lab-host" snapshot worker 40
           (SftpError "No such file") [WriteReply 40 (SftpDone tt)]
           eq_refl eq_refl (or_introl (ex_intro _ "No such file"%string
                                                eq_refl))).
Defined.

Lemma save_overwrites_equal_timestamp_witness :
  ∃ written,
    requests (saveRemoteAflConfig parse_more stringify calendar "lab-host"
                snapshot (holding clash_text)).2
    = [ReadRequest "lab-host" "afl" "/home/afl/.afl/config.json";
       WriteRequest "lab-host" "afl" "/home/afl/.afl/config.json"
         (stringify (JObject written))]
    ∧ keys written
      = ["24/01/02 03:04:05.006000"; "24/03/02 04:05:06.047000"]%string
    ∧ get_field "24/03/02 04:05:06.047000" written = Some snapshot.
Proof.
  assert (Hin : timestamp_key (calendar (now (holding clash_text) + 40))
                ∈ keys [("24/01/02 03:04:05.006000"%string, JObject []);
                        ("24/03/02 04:05:06.047000"%string,
                         JString "earlier")]).
  { vm_compute. apply list_elem_of_further, list_elem_of_here. }
  destruct (save_overwrites_equal_timestamp parse_more stringify calendar
              (holding clash_text) "lab-host" "24/01/02 03:04:05.006000"
              snapshot worker 40 (SftpDone clash_text)
              [WriteReply 40 (SftpDone tt)] (FileData clash_text)
              [("24/01/02 03:04:05.006000"%string, JObject []);
               ("24/03/02 04:05:06.047000"%string, JString "earlier")]
              eq_refl eq_refl eq_refl eq_refl Hin)
    as (written & H1 & H2 & H3 & _).
  exists written. split; [exact H1|]. split; [exact H2|exact H3].
Defined.

Lemma getRemoteAflConfig_outcomes_witness :
  (getRemoteAflConfig parse "lab-host" unreadable).1
  = Returned (Unread (Failure "No such file"))
  ∧ getRemoteAflConfig parse "other-host" unreadable
    = (Returned (Unread (Failure "No server for host other-host")),
       unreadable).
Proof.
  pose proof (getRemoteAflConfig_outcomes parse unreadable "lab-host" worker
                40 (SftpError "No such file") [WriteReply 40 (SftpDone tt)])
    as (_ & H & _).
  pose proof (getRemoteAflConfig_outcomes parse unreadable "other-host" worker
                40 (SftpError "No such file") [WriteReply 40 (SftpDone tt)])
    as (H' & _).
  split; [exact (proj1 (H eq_refl eq_refl))|exact (H' eq_refl)].
Defined.

Lemma save_then_get_returns_snapshot_witness :
  (getRemoteAflConfig parse_more "lab-host"
     (saveRemoteAflConfig parse_more stringify calendar "lab-host" snapshot
        keeping).2).1
  = Returned (ConfigData saved_document).
Proof.
  exact (proj1 (proj2 (save_then_get_returns_snapshot parse_more stringify
                         calendar keeping "lab-host"
                         (stringify saved_document) snapshot worker 40 40 40
                         (SftpDone old_text) [] (FileData old_text)
                         [("24/01/02 03:04:05.006000"%string, JObject [])]
                         eq_refl eq_refl eq_refl eq_refl eq_refl eq_refl))).
Defined.

Lemma save_reads_before_it_writes_witness :
  (saveRemoteAflConfig parse stringify calendar "lab-host" snapshot
     Samples.online).1 = Pending
  ∧ saveRemoteAflConfig parse stringify calendar "other-host" snapshot
      Samples.online
    = (Returned (Failure "No server for host other-host"), Samples.online).
Proof.
  pose proof (save_reads_before_it_writes parse stringify calendar
                Samples.online "other-host" snapshot) as (_ & H & _).
  split; [reflexivity|exact (H eq_refl)].
Defined.

End MoreDocumentExamples.

(** ** The timestamp key *)

Section TimestampFacts.

Import Document RemoteConfig.

#[local] Arguments String.append !_ _ / : simpl nomatch.

Lemma length_append (a b : string) :
  String.length (a +:+ b) = (String.length a + String.length b)%nat.
Proof. induction a as [|c a IH]; simpl; [done|]. by rewrite IH. Qed.

Lemma append_inv_length (a1 a2 r1 r2 : string) :
  String.length a1 = String.length a2 →
  a1 +:+ r1 = a2 +:+ r2 → a1 = a2 ∧ r1 = r2.
Proof.
  revert a2. induction a1 as [|c a1 IH]; intros [|c' a2]; simpl; try done.
  intros [= Hlen] [= -> Happ]. destruct (IH _ Hlen Happ) as [-> ->]. done.
Qed.

Lemma table_forall (P : Z → Prop) (m n : Z) :
  Forall P (seqZ m n) → ∀ a, m ≤ a < m + n → P a.
Proof.
  intros Hall a Ha. rewrite Forall_forall in Hall. apply Hall.
  apply elem_of_seqZ. lia.
Qed.

(** Two digits that read back as the number padded. *)
Lemma pad_table :
  Forall (λ n, String.length (pad n) = 2%nat ∧ digits_value 0 (pad n) = n)
         (seqZ 0 100).
Proof. apply (bool_decide_eq_true_1 _). by vm_compute. Qed.

(** Six digits that read back as the microseconds. *)
Lemma micros_table :
  Forall (λ ms, String.length (padStart 6 (pretty (ms * 1000))) = 6%nat
                ∧ digits_value 0 (padStart 6 (pretty (ms * 1000)))
                  = ms * 1000)
         (seqZ 0 1000).
Proof. apply (bool_decide_eq_true_1 _). by vm_compute. Qed.

Lemma year_table :
  Forall (λ y, slice_last2 (pretty y) = pad (y - 2000)) (seqZ 2000 100).
Proof. apply (bool_decide_eq_true_1 _). by vm_compute. Qed.

Lemma pad_length n : 0 ≤ n < 100 → String.length (pad n) = 2%nat.
Proof.
  intros Hn. apply (table_forall _ 0 100 pad_table). lia.
Qed.

Lemma pad_inj a b : 0 ≤ a < 100 → 0 ≤ b < 100 → pad a = pad b → a = b.
Proof.
  intros Ha Hb Hab.
  destruct (table_forall _ 0 100 pad_table a) as [_ <-]; [lia|].
  destruct (table_forall _ 0 100 pad_table b) as [_ <-]; [lia|].
  by rewrite Hab.
Qed.

Lemma micros_inj a b :
  0 ≤ a < 1000 → 0 ≤ b < 1000 →
  padStart 6 (pretty (a * 1000)) = padStart 6 (pretty (b * 1000)) → a = b.
Proof.
  intros Ha Hb Hab.
  destruct (table_forall _ 0 1000 micros_table a) as [_ Hra]; [lia|].
  destruct (table_forall _ 0 1000 micros_table b) as [_ Hrb]; [lia|].
  simpl in Hra, Hrb. rewrite Hab in Hra. lia.
Qed.

Lemma year_suffix y :
  2000 ≤ y ≤ 2099 → slice_last2 (pretty y) = pad (y - 2000).
Proof. intros Hy. apply (table_forall _ 2000 100 year_table). lia. Qed.

(** X29. For dates of the years 2000 to 2099 the timestamp key has 24
    characters and tells dates apart: two such dates that get the same key
    have the same year, month, day, hour, minute, second and millisecond. *)
Theorem timestamp_key_tells_dates_apart (d1 d2 : date) :
  of_this_century d1 → of_this_century d2 →
  String.length (timestamp_key d1) = 24%nat
  ∧ (timestamp_key d1 = timestamp_key d2 → d1 = d2).
Proof.
  intros (Hy1 & Hm1 & Hd1 & Hh1 & Hi1 & Hs1 & Hu1)
         (Hy2 & Hm2 & Hd2 & Hh2 & Hi2 & Hs2 & Hu2).
  unfold timestamp_key. rewrite !year_suffix by done.
  split.
  - rewrite !length_append, !pad_length by lia.
    destruct (table_forall _ 0 1000 micros_table (getMilliseconds d1))
      as [-> _]; [lia|done].
  - intros Heq.
    apply append_inv_length in Heq as [Hy Heq];
      [|by rewrite !pad_length by lia].
    simpl in Heq. injection Heq as Heq.
    apply append_inv_length in Heq as [Hd Heq];
      [|by rewrite !pad_length by lia].
    simpl in Heq. injection Heq as Heq.
    apply append_inv_length in Heq as [Hm Heq];
      [|by rewrite !pad_length by lia].
    simpl in Heq. injection Heq as Heq.
    apply append_inv_length in Heq as [Hh Heq];
      [|by rewrite !pad_length by lia].
    simpl in Heq. injection Heq as Heq.
    apply append_inv_length in Heq as [Hi Heq];
      [|by rewrite !pad_length by lia].
    simpl in Heq. injection Heq as Heq.
    apply append_inv_length in Heq as [Hs Heq];
      [|by rewrite !pad_length by lia].
    simpl in Heq. injection Heq as Hu.
    apply pad_inj in Hy; [|lia..].
    apply pad_inj in Hd; [|lia..].
    apply pad_inj in Hm; [|lia..].
    apply pad_inj in Hh; [|lia..].
    apply pad_inj in Hi; [|lia..].
    apply pad_inj in Hs; [|lia..].
    apply micros_inj in Hu; [|lia..].
    destruct d1, d2; simpl in *. f_equal; lia.
Qed.

Lemma timestamp_key_tells_dates_apart_witness :
  String.length (timestamp_key (Samples.calendar 1047)) = 24%nat.
Proof.
  assert (Hr : ∀ ms, of_this_century (Samples.calendar ms)).
  { intros ms. unfold of_this_century, Samples.calendar. simpl.
    pose proof (Z.mod_pos_bound ms 1000). lia. }
  exact (proj1 (timestamp_key_tells_dates_apart (Samples.calendar 1047)
                  (Samples.calendar 2048) (Hr 1047) (Hr 2048))).
Defined.

End TimestampFacts.
